(** * cv-application: schema-derived form state, CV collection, and text helpers

    A shallow embedding of the TypeScript sources

      - [data/formData.ts]            the three field lists,
      - [utils/objects.ts]            [pluck],
      - [utils/arrays.ts]             [createStateFromKeys],
      - [utils/state.ts]              [createFieldUpdater] / [updateField],
      - [components/FormSection.tsx]  draft initialiser, [handleInputChange],
                                      [handleButtonClick],
      - [App.tsx]                     [cvData], [draftData], [isActive] and
                                      their handlers,
      - [components/Aside.tsx]        the [closed] class / [aria-hidden],
      - [utilities/text-formatting.ts] [camelToKebab], [isCapitalLetter],
                                      [getFirstCapitalIndex],

    followed by the properties of the specification that concern them.

    Modelling conventions.

      - A value of TypeScript type [string | null] is a [FieldValue].
      - A plain object used as a record ([FormValues<...>]) is the finite map
        of its own enumerable string-keyed properties, [gmap string
        FieldValue].  Property order and the prototype are not part of the
        model; no property below speaks of the order of enumeration, and
        reads are reads of own properties.
      - A React state cell is a component of an explicit state record; a
        call [setX(f)] of its setter with an updater function replaces the
        component by [f] applied to it.
      - A key, a label or an id is a [string]; its characters stand for
        UTF-16 code units below 256, which is what the field lists use.
        [camelToKebab] on arbitrary JavaScript strings, lists of UTF-16
        code units, is in [JS], with the case table of the engine as a
        parameter; the two agree on strings of code units below 256. *)

From Stdlib Require Import String Ascii List Bool.
From stdpp Require Import gmap strings list fin_maps.

Open Scope string_scope.

(* ===================================================================== *)
(** ** Values and records *)
(* ===================================================================== *)

(** [string | null] *)
Inductive FieldValue : Type :=
  | Null
  | Str (s : string).

#[global] Instance FieldValue_eq_dec : EqDecision FieldValue.
Proof. solve_decision. Defined.

(** [FormValues<T>]: [{ [K in T[number]['key']]: string | null }], at run
    time a plain object. *)
Abbreviation FormValues := (gmap string FieldValue).

(** [value ?? ''] as used for the displayed value of an input. *)
Definition orEmpty (v : option FieldValue) : string :=
  match v with
  | Some (Str s) => s
  | Some Null | None => ""
  end.

(* ===================================================================== *)
(** ** data/formData.ts *)
(* ===================================================================== *)

Inductive InputType : Type := text | email | tel | date | textarea.

(** One element of a field list:
    [{ key, label, placeholder?, type? }]. *)
Record FieldType : Type := mkField {
  key : string;
  label : string;
  placeholder : option string;
  type : option InputType
}.

Abbreviation FieldConfig := (list FieldType).

Definition GENERAL_INFORMATION : FieldConfig :=
  [ mkField "name" "Name" (Some "Enter Your Name") None;
    mkField "email" "Email" (Some "Enter Your E-Mail") None;
    mkField "phoneNumber" "Phone Number" (Some "Enter Your Phone Number") (Some tel) ].

Definition EDUCATIONAL_EXPERIENCE : FieldConfig :=
  [ mkField "schoolName" "School Name" (Some "Enter School Name") None;
    mkField "fieldOfStudy" "Field of Study" (Some "Enter Field of Study") None;
    mkField "dateStarted" "Start Date" None (Some date);
    mkField "dateEnded" "End Date" None (Some date) ].

Definition PRACTICAL_EXPERIENCE : FieldConfig :=
  [ mkField "companyName" "Company Name" (Some "Enter Company Name") None;
    mkField "positionTitle" "Title" (Some "Enter your title") None;
    mkField "responsibilities" "Responsibilities" (Some "List Responsibilites") (Some textarea);
    mkField "dateStarted" "Start Date" None (Some date);
    mkField "dateEnded" "End Date" None (Some date) ].

(** The field lists the application registers (the three [FormSection]s
    mounted by [Aside]). *)
Definition registered : list FieldConfig :=
  [ GENERAL_INFORMATION; EDUCATIONAL_EXPERIENCE; PRACTICAL_EXPERIENCE ].

(* ===================================================================== *)
(** ** utils/objects.ts, utils/arrays.ts *)
(* ===================================================================== *)

(** [pluck(arr, key) = arr.map((item) => item[key])]; the property name
    is given as its projection. *)
Definition pluck {A B : Type} (arr : list A) (key : A -> B) : list B :=
  map key arr.

(** The declared keys of a field list, in display order. *)
Definition fieldKeys (fields : FieldConfig) : list string := pluck fields key.

(** The same keys as a set. *)
Definition keySet (fields : FieldConfig) : gset string :=
  list_to_set (fieldKeys fields).

(** [Object.fromEntries(entries)]: the entries are defined one after the
    other on a fresh object, so a later entry overwrites an earlier one
    with the same key. *)
Definition fromEntries (entries : list (string * FieldValue)) : FormValues :=
  fold_left (fun o e => <[ fst e := snd e ]> o) entries ∅.

(** [createStateFromKeys(keys) =
       Object.fromEntries(keys.map((key) => [key, null]))] *)
Definition createStateFromKeys (keys : list string) : FormValues :=
  fromEntries (map (fun key => (key, Null)) keys).

(* ===================================================================== *)
(** ** utils/state.ts and components/FormSection.tsx *)
(* ===================================================================== *)

(** The object literal [{ ...prev, [key]: value }]: a new object with the
    properties of [prev], then [key] defined as [value]. *)
Definition spreadWith (prev : FormValues) (key : string) (value : FieldValue)
  : FormValues :=
  <[ key := value ]> prev.

(** [createFieldUpdater(setter)] returns
    [updateField = (key, value) => setter((prev) => ({ ...prev, [key]: value }))].
    [setter] is the state setter it closes over: given an updater function
    it transforms the enclosing state [St]. *)
Definition createFieldUpdater {St : Type}
    (setter : (FormValues -> FormValues) -> St -> St)
  : string -> string -> St -> St :=
  fun key value => setter (fun prev => spreadWith prev key (Str value)).

(** The setter of a [useState] cell that holds the record itself. *)
Definition setState {T : Type} (f : T -> T) (s : T) : T := f s.

(** [updateField] on a cell holding one draft record. *)
Definition updateField : string -> string -> FormValues -> FormValues :=
  createFieldUpdater setState.

(** The initial [draftState] of a [FormSection]:
    [fields.reduce((acc, field) => { acc[field.key] = null; return acc; }, {})].
    For every key but [__proto__] the assignment defines (or overwrites)
    an own property, which is what the definition does; it is exact for
    field lists without a key [__proto__], as the three registered ones. *)
Definition initialDraftState (fields : FieldConfig) : FormValues :=
  fold_left (fun acc field => <[ key field := Null ]> acc) fields ∅.

(** [handleInputChange(e)]: with [{ name, value } = e.target],
    [setDraftState((prev) => ({ ...prev, [name]: value }))]. *)
Definition handleInputChange (name value : string) (draftState : FormValues)
  : FormValues :=
  setState (fun prev => spreadWith prev name (Str value)) draftState.

(** [handleButtonClick(e, fieldData)]: [e.preventDefault()], then
    [handleAddToCV(fieldData)].  The record is handed over as it is. *)
Definition handleButtonClick {St : Type}
    (handleAddToCV : FormValues -> St -> St) (fieldData : FormValues)
  : St -> St :=
  handleAddToCV fieldData.

(* ===================================================================== *)
(** ** App.tsx: application state and its handlers *)
(* ===================================================================== *)

(** [CVData] *)
Record CVData : Type := mkCVData {
  generalInformation : option FormValues;   (* FormValues<...> | null *)
  educationalExperience : list FormValues;
  practicalExperience : list FormValues
}.

(** [DraftData] *)
Record DraftData : Type := mkDraftData {
  generalDraft : FormValues;
  educationDraft : FormValues;
  practicalDraft : FormValues
}.

(** The three [useState] cells of [App]. *)
Record AppState : Type := mkApp {
  cvData : CVData;
  draftData : DraftData;
  isActive : bool
}.

Definition initialCvData : CVData :=
  {| generalInformation := None;
     educationalExperience := [];
     practicalExperience := [] |}.

(** An object literal [{ k1: null, ..., kn: null }]. *)
Definition nullLiteral (keys : list string) : FormValues :=
  fold_left (fun o k => <[ k := Null ]> o) keys ∅.

Definition initialDraftData : DraftData :=
  {| generalDraft := nullLiteral ["name"; "email"; "phoneNumber"];
     educationDraft :=
       nullLiteral ["schoolName"; "fieldOfStudy"; "dateStarted"; "dateEnded"];
     practicalDraft :=
       nullLiteral ["companyName"; "positionTitle"; "responsibilities";
                    "dateStarted"; "dateEnded"] |}.

Definition initialApp : AppState :=
  {| cvData := initialCvData; draftData := initialDraftData; isActive := false |}.

Definition setCvData (f : CVData -> CVData) (s : AppState) : AppState :=
  {| cvData := f (cvData s); draftData := draftData s; isActive := isActive s |}.

Definition setDraftData (f : DraftData -> DraftData) (s : AppState) : AppState :=
  {| cvData := cvData s; draftData := f (draftData s); isActive := isActive s |}.

Definition setIsActive (f : bool -> bool) (s : AppState) : AppState :=
  {| cvData := cvData s; draftData := draftData s; isActive := f (isActive s) |}.

(** [setDraftData((prev) => ({ ...prev, generalDraft: generalDraftData }))] *)
Definition updateGeneralDraft (generalDraftData : FormValues) : AppState -> AppState :=
  setDraftData (fun prev =>
    {| generalDraft := generalDraftData;
       educationDraft := educationDraft prev;
       practicalDraft := practicalDraft prev |}).

Definition updatePracticalDraft (practicalDraftData : FormValues) : AppState -> AppState :=
  setDraftData (fun prev =>
    {| generalDraft := generalDraft prev;
       educationDraft := educationDraft prev;
       practicalDraft := practicalDraftData |}).

Definition updateEducationalDraft (educationalDraftData : FormValues) : AppState -> AppState :=
  setDraftData (fun prev =>
    {| generalDraft := generalDraft prev;
       educationDraft := educationalDraftData;
       practicalDraft := practicalDraft prev |}).

(** [setCvData((prev) => ({ ...prev, generalInformation: fieldData }))] *)
Definition addGeneralInformation (fieldData : FormValues) : AppState -> AppState :=
  setCvData (fun prev =>
    {| generalInformation := Some fieldData;
       educationalExperience := educationalExperience prev;
       practicalExperience := practicalExperience prev |}).

(** [setCvData((prev) => ({ ...prev,
       practicalExperience: [...prev.practicalExperience, fieldData] }))] *)
Definition addPracticalExperience (fieldData : FormValues) : AppState -> AppState :=
  setCvData (fun prev =>
    {| generalInformation := generalInformation prev;
       educationalExperience := educationalExperience prev;
       practicalExperience := practicalExperience prev ++ [fieldData] |}).

(** [setCvData((prev) => ({ ...prev,
       educationalExperience: [...prev.educationalExperience, fieldData] }))] *)
Definition addEducationalExperience (fieldData : FormValues) : AppState -> AppState :=
  setCvData (fun prev =>
    {| generalInformation := generalInformation prev;
       educationalExperience := educationalExperience prev ++ [fieldData];
       practicalExperience := practicalExperience prev |}).

(** [toggleProps.onClick = () => setIsActive(prev => !prev)] *)
Definition toggleOnClick : AppState -> AppState := setIsActive negb.

(* ===================================================================== *)
(** ** The mounted application: [App] with its three [FormSection]s *)
(* ===================================================================== *)

Inductive SectionName : Type := General | Education | Practical.

(** [App]'s cells together with the [draftState] cell of each of the three
    form sections rendered by [Aside]. *)
Record UI : Type := mkUI {
  app : AppState;
  generalForm : FormValues;
  educationForm : FormValues;
  practicalForm : FormValues
}.

Definition fieldsOf (sec : SectionName) : FieldConfig :=
  match sec with
  | General => GENERAL_INFORMATION
  | Education => EDUCATIONAL_EXPERIENCE
  | Practical => PRACTICAL_EXPERIENCE
  end.

Definition formOf (sec : SectionName) (u : UI) : FormValues :=
  match sec with
  | General => generalForm u
  | Education => educationForm u
  | Practical => practicalForm u
  end.

Definition setFormOf (sec : SectionName) (f : FormValues -> FormValues) (u : UI) : UI :=
  match sec with
  | General =>
      {| app := app u; generalForm := f (generalForm u);
         educationForm := educationForm u; practicalForm := practicalForm u |}
  | Education =>
      {| app := app u; generalForm := generalForm u;
         educationForm := f (educationForm u); practicalForm := practicalForm u |}
  | Practical =>
      {| app := app u; generalForm := generalForm u;
         educationForm := educationForm u; practicalForm := f (practicalForm u) |}
  end.

Definition onApp (f : AppState -> AppState) (u : UI) : UI :=
  {| app := f (app u); generalForm := generalForm u;
     educationForm := educationForm u; practicalForm := practicalForm u |}.

(** The props [Aside] wires to each section. *)
Definition updateDraftOf (sec : SectionName) : FormValues -> AppState -> AppState :=
  match sec with
  | General => updateGeneralDraft
  | Education => updateEducationalDraft
  | Practical => updatePracticalDraft
  end.

Definition handleAddToCVOf (sec : SectionName) : FormValues -> AppState -> AppState :=
  match sec with
  | General => addGeneralInformation
  | Education => addEducationalExperience
  | Practical => addPracticalExperience
  end.

(** [useEffect(() => { updateDraft(draftState) }, [draftState, updateDraft])] *)
Definition draftEffect (sec : SectionName) (u : UI) : UI :=
  onApp (updateDraftOf sec (formOf sec u)) u.

(** The user events of the page. *)
Inductive Event : Type :=
  | InputChange (sec : SectionName) (name value : string)
  | AddClick (sec : SectionName)
  | ToggleClick.

(** One event, run to completion: the handler, then the effect it
    triggers. *)
Definition dispatch (e : Event) (u : UI) : UI :=
  match e with
  | InputChange sec name value =>
      draftEffect sec (setFormOf sec (handleInputChange name value) u)
  | AddClick sec =>
      onApp (handleButtonClick (handleAddToCVOf sec) (formOf sec u)) u
  | ToggleClick => onApp toggleOnClick u
  end.

Definition run (events : list Event) (u : UI) : UI :=
  fold_left (fun u e => dispatch e u) events u.

(** The page after mounting: every section starts from its derived blank
    draft and reports it to [App]. *)
Definition mounted : UI :=
  draftEffect Practical (draftEffect Education (draftEffect General
    {| app := initialApp;
       generalForm := initialDraftState GENERAL_INFORMATION;
       educationForm := initialDraftState EDUCATIONAL_EXPERIENCE;
       practicalForm := initialDraftState PRACTICAL_EXPERIENCE |})).

(* ===================================================================== *)
(** ** components/Aside.tsx *)
(* ===================================================================== *)

(** [clsx(...args)]: the truthy class names, joined by single spaces.  An
    argument is a string or [false]. *)
Fixpoint clsx (args : list (option string)) : string :=
  match args with
  | [] => ""
  | None :: rest | Some "" :: rest => clsx rest
  | Some c :: rest =>
      match clsx rest with
      | "" => c
      | r => c +:+ " " +:+ r
      end
  end.

(** [!isOpen && 'closed'] *)
Definition closedWhenNot (isOpen : bool) : option string :=
  if negb isOpen then Some "closed" else None.

(** What [Aside] renders of its [isOpen] prop: the variant with
    [className={clsx(!isOpen && 'closed')}], and the variants with
    [aria-hidden={!isOpen}]. *)
Definition asideClassName (isOpen : bool) : string := clsx [closedWhenNot isOpen].
Definition asideAriaHidden (isOpen : bool) : bool := negb isOpen.

(** [<Aside isOpen={isActive} ... />] and
    [aria-expanded={isControlledElementActive}] on the toggle. *)
Definition renderedAsideClass (u : UI) : string := asideClassName (isActive (app u)).
Definition renderedAriaExpanded (u : UI) : bool := isActive (app u).

(** The panel is shown open exactly when it does not carry [closed]. *)
Definition shownOpen (className : string) : bool :=
  negb (String.eqb className "closed").

(* ===================================================================== *)
(** ** library/utilities/text-formatting.ts *)
(* ===================================================================== *)

(** A character class [[lo-hi]] of a regular expression without flags:
    comparison of code units. *)
Definition inRange (lo hi c : ascii) : bool :=
  Ascii.leb lo c && Ascii.leb c hi.

(** [[a-z0-9]] *)
Definition isLowerOrDigit (c : ascii) : bool :=
  inRange "a" "z" c || inRange "0" "9" c.

(** [[A-Z]] *)
Definition isUpperAZ (c : ascii) : bool := inRange "A" "Z" c.

(** [str.replace(/([a-z0-9])([A-Z])/g, '$1-$2')]: scanning from the left,
    a match takes both of its characters and the scan resumes behind it. *)
Fixpoint replaceCamel (str : string) : string :=
  match str with
  | String a (String b rest as tail) =>
      if isLowerOrDigit a && isUpperAZ b
      then String a (String "-" (String b (replaceCamel rest)))
      else String a (replaceCamel tail)
  | _ => str
  end.

(** The lower-case mapping of one code unit below 256: [A]-[Z] and the
    Latin-1 capitals U+00C0-U+00DE (without the sign U+00D7) move up by
    32, every other code unit is its own lower case. *)
Definition lowerChar (c : ascii) : ascii :=
  let n := N_of_ascii c in
  if ((65 <=? n) && (n <=? 90) ||
      (192 <=? n) && (n <=? 222) && negb (n =? 215))%N
  then ascii_of_N (n + 32)
  else c.

(** [String.prototype.toLowerCase] on a string of code units below 256,
    where it works code unit by code unit ([JS.toLowerCase] is the
    function on arbitrary strings). *)
Fixpoint toLowerCase (s : string) : string :=
  match s with
  | EmptyString => EmptyString
  | String c rest => String (lowerChar c) (toLowerCase rest)
  end.

(** [camelToKebab = (str) =>
      str.replace(/([a-z0-9])([A-Z])/g, '$1-$2').toLowerCase()],
    on a string of code units below 256. *)
Definition camelToKebab (str : string) : string :=
  toLowerCase (replaceCamel str).

(** [isCapitalLetter = (letter) => letter >= 'A' && letter <= 'Z' ? true : false];
    the comparisons are those of strings, by code units. *)
Definition isCapitalLetter (letter : string) : bool :=
  if String.leb "A" letter && String.leb letter "Z" then true else false.

(** The loop of [getFirstCapitalIndex], entered at index [i] with the
    characters from [i] on still to be visited. *)
Fixpoint firstCapitalFrom (i : Z) (remaining : string) : Z :=
  match remaining with
  | EmptyString => (-1)%Z
  | String char rest =>
      if isCapitalLetter (String char EmptyString) then i
      else firstCapitalFrom (i + 1)%Z rest
  end.

Definition getFirstCapitalIndex (s : string) : Z := firstCapitalFrom 0%Z s.

(** Every character of [s] satisfies [p]. *)
Fixpoint allChars (p : ascii -> bool) (s : string) : bool :=
  match s with
  | EmptyString => true
  | String c rest => p c && allChars p rest
  end.


(* ===================================================================== *)
(** ** Object identity: the object literal allocates *)
(* ===================================================================== *)

(** The records above are values.  To speak about an object being left
    alone by an operation, [Store] keeps objects in a store and passes
    references, as the JavaScript program does. *)
Module Store.

Abbreviation ref := positive.
Abbreviation heap := (gmap positive (gmap string FieldValue)).

(** A new object with the given own properties. *)
Definition alloc (o : FormValues) (h : heap) : ref * heap :=
  let r := fresh (dom h) in (r, <[ r := o ]> h).

(** [({ ...prev, [key]: value })] with [prev] a reference: the
    properties of the object [prev] points to are copied into a new
    object, on which [key] is then defined.  Nothing is written through
    [prev].  ([None] only for a reference that points nowhere.) *)
Definition spreadWith (prev : ref) (key : string) (value : FieldValue)
    (h : heap) : option (ref * heap) :=
  match h !! prev with
  | Some o => Some (alloc (<[ key := value ]> o) h)
  | None => None
  end.

(** A [useState] cell: the store and the reference the cell holds. *)
Record cell : Type := mkCell { store : heap; current : ref }.

(** The setter, called with an updater function. *)
Definition setState (f : ref -> heap -> option (ref * heap)) (c : cell)
  : option cell :=
  match f (current c) (store c) with
  | Some (r, h) => Some {| store := h; current := r |}
  | None => None
  end.

(** [createFieldUpdater(setter)] *)
Definition createFieldUpdater {St : Type}
    (setter : (ref -> heap -> option (ref * heap)) -> St -> option St)
  : string -> string -> St -> option St :=
  fun key value => setter (fun prev => spreadWith prev key (Str value)).

Definition updateField : string -> string -> cell -> option cell :=
  createFieldUpdater setState.

(** The record a cell currently holds. *)
Definition contents (c : cell) : option FormValues := store c !! current c.

End Store.

(* ===================================================================== *)
(** ** Vocabulary of the properties *)
(* ===================================================================== *)

(** A record is derived from a field list when its keys are exactly the
    declared ones. *)
Definition derivedFrom (R : FormValues) (fields : FieldConfig) : Prop :=
  dom R = keySet fields.

(** The record and the cell of the scenarios: the blank general
    information record, alone in the store. *)
Definition blankGeneral : FormValues :=
  createStateFromKeys (pluck GENERAL_INFORMATION key).

Definition blankGeneralCell : Store.cell :=
  {| Store.store := {[ 1%positive := blankGeneral ]};
     Store.current := 1%positive |}.

(** The record a section has most recently put into the collection. *)
Definition lastSubmitted (sec : SectionName) (cv : CVData) : option FormValues :=
  match sec with
  | General => generalInformation cv
  | Education => last (educationalExperience cv)
  | Practical => last (practicalExperience cv)
  end.

(** One of the three ways the collection changes. *)
Inductive grows : CVData → CVData → Prop :=
  | grows_replace_general (cv : CVData) (r : FormValues) :
      grows cv {| generalInformation := Some r;
                  educationalExperience := educationalExperience cv;
                  practicalExperience := practicalExperience cv |}
  | grows_append_education (cv : CVData) (r : FormValues) :
      grows cv {| generalInformation := generalInformation cv;
                  educationalExperience := educationalExperience cv ++ [r];
                  practicalExperience := practicalExperience cv |}
  | grows_append_practical (cv : CVData) (r : FormValues) :
      grows cv {| generalInformation := generalInformation cv;
                  educationalExperience := educationalExperience cv;
                  practicalExperience := practicalExperience cv ++ [r] |}.

(** Nothing that was in the collection is lost. *)
Definition extends (cv cv' : CVData) : Prop :=
  educationalExperience cv `prefix_of` educationalExperience cv'
  ∧ practicalExperience cv `prefix_of` practicalExperience cv'
  ∧ (is_Some (generalInformation cv) → is_Some (generalInformation cv')).



Definition notUpperAZ (c : ascii) : bool := negb (isUpperAZ c).

(** [c] is its own lower case. *)
Definition isLowered (c : ascii) : bool := Ascii.eqb (lowerChar c) c.

(* ===================================================================== *)
(** ** Further source functions *)
(* ===================================================================== *)

(** [concatenateStringArray = (arrayOfStrings) => arrayOfStrings.join(' ')]
    (utils/arrays.ts) *)
Fixpoint concatenateStringArray (arrayOfStrings : list string) : string :=
  match arrayOfStrings with
  | [] => ""
  | [s] => s
  | s :: rest => s +:+ " " +:+ concatenateStringArray rest
  end.

(** The replacement pass of [camelCaseToSentence], at position [index] of
    the original string: [(match, index) =>
       index === 0 ? match : ` ${match.toLowerCase()}`] for a character in
    [[A-Z]], every other character copied. *)
Fixpoint sentenceFrom (index : nat) (s : string) : string :=
  match s with
  | EmptyString => EmptyString
  | String c rest =>
      if isUpperAZ c
      then if Nat.eqb index 0
           then String c (sentenceFrom (S index) rest)
           else String " " (String (lowerChar c) (sentenceFrom (S index) rest))
      else String c (sentenceFrom (S index) rest)
  end.

(** [camelCaseToSentence(string) =
       string.replaceAll(/[A-Z]/g, (match, index) => ...)] *)
Definition camelCaseToSentence (s : string) : string := sentenceFrom 0 s.

(** What a form section renders for one field: the label, and a
    [<textarea>] when [field.type === 'textarea'], otherwise an [<input>]
    of type [field.type ?? 'text']. *)
Inductive Control : Type :=
  | TextareaControl
  | InputControl (inputType : InputType).

Record RenderedField : Type := mkRendered {
  htmlFor : string;
  labelText : string;
  control : Control;
  idAttr : string;
  nameAttr : string;
  placeholderAttr : option string;
  valueAttr : string
}.

(** The body of [fields.map((field) => ...)] in [FormSection].  The value
    shown, [draftState[field.key] ?? ''], is read as an own property of
    the draft; that is the value the code reads whenever the key is an own
    property of the draft, as it is for the fields of the section. *)
Definition renderField (draftState : FormValues) (field : FieldType) : RenderedField :=
  let id := camelToKebab (key field) in
  {| htmlFor := id;
     labelText := label field +:+ ":";
     control := match type field with
                | Some textarea => TextareaControl
                | Some t => InputControl t
                | None => InputControl text
                end;
     idAttr := id;
     nameAttr := key field;
     placeholderAttr := placeholder field;
     valueAttr := orEmpty (draftState !! key field) |}.

Definition renderFields (draftState : FormValues) (fields : FieldConfig)
  : list RenderedField :=
  map (renderField draftState) fields.

Definition isTextareaControl (c : Control) : bool :=
  match c with
  | TextareaControl => true
  | InputControl _ => false
  end.

(** [field.type === 'textarea'] *)
Definition isTextareaField (field : FieldType) : bool :=
  match type field with
  | Some textarea => true
  | _ => false
  end.


(* ===================================================================== *)
(** ** Vocabulary of the further properties *)
(* ===================================================================== *)

(** An input event as a rendered control can raise it: its name is the
    [name] attribute of a control of that section. *)
Definition emitted (e : Event) : Prop :=
  match e with
  | InputChange sec name _ => name ∈ map nameAttr (renderFields ∅ (fieldsOf sec))
  | _ => True
  end.

Definition draftOf (sec : SectionName) (d : DraftData) : FormValues :=
  match sec with
  | General => generalDraft d
  | Education => educationDraft d
  | Practical => practicalDraft d
  end.

(** The records a section has in the collection. *)
Definition recordsOf (sec : SectionName) (cv : CVData) : list FormValues :=
  match sec with
  | General => option_list (generalInformation cv)
  | Education => educationalExperience cv
  | Practical => practicalExperience cv
  end.

(** Every draft has the keys of its field list. *)
Definition formsDerived (u : UI) : Prop :=
  ∀ sec, derivedFrom (formOf sec u) (fieldsOf sec).

(** Every record of the collection has the keys of its field list. *)
Definition collectionDerived (cv : CVData) : Prop :=
  ∀ sec, Forall (fun r => derivedFrom r (fieldsOf sec)) (recordsOf sec cv).

(** [App]'s copy of the drafts is the drafts of the sections. *)
Definition synced (u : UI) : Prop :=
  ∀ sec, draftOf sec (draftData (app u)) = formOf sec u.

Definition sameSection (a b : SectionName) : bool :=
  match a, b with
  | General, General | Education, Education | Practical, Practical => true
  | _, _ => false
  end.

Definition addsTo (sec : SectionName) (e : Event) : bool :=
  match e with
  | AddClick s => sameSection s sec
  | _ => false
  end.

Definition isToggle (e : Event) : bool :=
  match e with
  | ToggleClick => true
  | _ => false
  end.

Fixpoint countIf (p : Event → bool) (events : list Event) : nat :=
  match events with
  | [] => 0
  | e :: rest => (if p e then 1 else 0) + countIf p rest
  end.

(** A sequence of [updateField] calls on one cell. *)
Fixpoint storeUpdateFields (updates : list (string * string)) (c : Store.cell)
  : option Store.cell :=
  match updates with
  | [] => Some c
  | (k, v) :: rest =>
      match Store.updateField k v c with
      | Some c' => storeUpdateFields rest c'
      | None => None
      end
  end.

(** The same calls on the record as a value. *)
Definition updateFields (updates : list (string * string)) (R : FormValues)
  : FormValues :=
  fold_left (fun r kv => updateField (fst kv) (snd kv) r) updates R.

(** The number of places where the pattern of [camelToKebab] matches. *)
Fixpoint countMatches (str : string) : nat :=
  match str with
  | String a (String b rest as tail) =>
      if isLowerOrDigit a && isUpperAZ b
      then S (countMatches rest)
      else countMatches tail
  | _ => 0
  end.

(** The index of the first character satisfying [p], if any. *)
Fixpoint findChar (p : ascii → bool) (s : string) : option nat :=
  match s with
  | EmptyString => None
  | String c rest => if p c then Some 0 else S <$> findChar p rest
  end.

(* ===================================================================== *)
(** ** camelToKebab on arbitrary strings *)
(* ===================================================================== *)

(** [camelToKebab] above works on strings of code units below 256, which
    is what every key and section name of the application is.  [JS] has
    the function on every JavaScript string: a string is the list of its
    UTF-16 code units, the regular expression works on code units, and
    [toLowerCase] follows ECMAScript: decode to code points, lower-case
    them with the Unicode case table, encode again.  The table belongs to
    the engine and is a parameter. *)
Module JS.

Definition inRange (lo hi u : N) : bool := ((lo <=? u) && (u <=? hi))%N.

(** [[a-z0-9]] and [[A-Z]] on code units. *)
Definition isLowerOrDigit (u : N) : bool := inRange 97 122 u || inRange 48 57 u.
Definition isUpperAZ (u : N) : bool := inRange 65 90 u.


(** [str.replace(/([a-z0-9])([A-Z])/g, '$1-$2')]; 45 is the hyphen. *)
Fixpoint replaceCamel (str : list N) : list N :=
  match str with
  | a :: ((b :: rest) as tail) =>
      if isLowerOrDigit a && isUpperAZ b
      then a :: 45%N :: b :: replaceCamel rest
      else a :: replaceCamel tail
  | _ => str
  end.

Definition isLeadingSurrogate (u : N) : bool := inRange 0xD800 0xDBFF u.
Definition isTrailingSurrogate (u : N) : bool := inRange 0xDC00 0xDFFF u.
Definition isSurrogate (u : N) : bool := inRange 0xD800 0xDFFF u.

Definition UTF16SurrogatePairToCodePoint (lead trail : N) : N :=
  ((lead - 0xD800) * 0x400 + (trail - 0xDC00) + 0x10000)%N.

(** [StringToCodePoints]: a leading surrogate directly followed by a
    trailing one is one code point, any other code unit (also a lone
    surrogate) is a code point by itself. *)
Fixpoint StringToCodePoints (s : list N) : list N :=
  match s with
  | first :: ((second :: rest) as tail) =>
      if isLeadingSurrogate first && isTrailingSurrogate second
      then UTF16SurrogatePairToCodePoint first second :: StringToCodePoints rest
      else first :: StringToCodePoints tail
  | _ => s
  end.

(** [CodePointsToString] *)
Definition UTF16EncodeCodePoint (cp : N) : list N :=
  if (cp <=? 0xFFFF)%N then [cp]
  else [ ((cp - 0x10000) / 0x400 + 0xD800)%N;
         ((cp - 0x10000) mod 0x400 + 0xDC00)%N ].

Definition CodePointsToString (text : list N) : list N :=
  flat_map UTF16EncodeCodePoint text.

(** The lower-case mapping of one code point in its context, the code
    points before it (nearest first) and after it: the result can be
    several code points and can depend on the context (final sigma). *)
Abbreviation caseTable := (list N → N → list N → list N).

(** [toLowercase(text)] of the Unicode default case conversion. *)
Fixpoint toLowercaseFrom (table : caseTable) (before text : list N) : list N :=
  match text with
  | [] => []
  | cp :: after =>
      (table before cp after ++ toLowercaseFrom table (cp :: before) after)%list
  end.

Definition toLowercase (table : caseTable) (text : list N) : list N :=
  toLowercaseFrom table [] text.

(** [String.prototype.toLowerCase] *)
Definition toLowerCase (table : caseTable) (s : list N) : list N :=
  CodePointsToString (toLowercase table (StringToCodePoints s)).

(** [camelToKebab] *)
Definition camelToKebab (table : caseTable) (str : list N) : list N :=
  toLowerCase table (replaceCamel str).

(** What is used of the Unicode table (UnicodeData.txt with the
    locale-independent entries of SpecialCasing.txt):
    below 256 it is [lowerChar]; no mapping yields a capital [A]-[Z];
    what a mapping yields is itself unchanged by lower-casing, in every
    context; no mapping is empty; a surrogate code point is unchanged and
    no other code point yields one; code points stay code points. *)
Record UnicodeLowercase (table : caseTable) : Prop := mkUnicodeLowercase {
  lower_latin1 : ∀ before cp after,
    (cp < 256)%N → table before cp after = [N_of_ascii (lowerChar (ascii_of_N cp))];
  lower_no_capital : ∀ before cp after cp',
    cp' ∈ table before cp after → isUpperAZ cp' = false;
  lower_fixed : ∀ before cp after cp',
    cp' ∈ table before cp after → ∀ before' after', table before' cp' after' = [cp'];
  lower_nonempty : ∀ before cp after, table before cp after ≠ [];
  lower_surrogate : ∀ before cp after,
    isSurrogate cp = true → table before cp after = [cp];
  lower_no_surrogate : ∀ before cp after cp',
    isSurrogate cp = false → cp' ∈ table before cp after → isSurrogate cp' = false;
  lower_code_point : ∀ before cp after cp',
    (cp ≤ 0x10FFFF)%N → cp' ∈ table before cp after → (cp' ≤ 0x10FFFF)%N
}.


Definition headIsTrailing (text : list N) : bool :=
  match text with
  | a :: _ => isTrailingSurrogate a
  | [] => false
  end.

End JS.

(** The code units of a string of code units below 256. *)
Definition unitsOf (s : string) : list N :=
  map N_of_ascii (list_ascii_of_string s).

(** A table that has the Unicode mappings below 256 and of U+0130 (capital
    I with dot above, which becomes [i] followed by the combining dot
    U+0307) and leaves every other code point alone. *)
Definition latin1Table : JS.caseTable :=
  fun _ cp _ =>
    if (cp <? 256)%N then [N_of_ascii (lowerChar (ascii_of_N cp))]
    else if (cp =? 0x130)%N then [0x69%N; 0x307%N]
    else [cp].

(* ===================================================================== *)
(** * Properties *)
(* ===================================================================== *)

(** ** Blank records *)

Section BlankRecords.

Implicit Types (keys : list string) (m : FormValues) (k : string).

Lemma nullFold_lookup keys m k :
  fold_left (fun o k0 => <[ k0 := Null ]> o) keys m !! k
  = if decide (k ∈ keys) then Some Null else m !! k.
Proof.
  revert m. induction keys as [|k0 keys IH]; intros m; simpl.
  - destruct (decide (k ∈ [])) as [Hin|_]; [|done].
    by apply elem_of_nil in Hin.
  - rewrite IH.
    destruct (decide (k ∈ keys)) as [Hin|Hin];
      destruct (decide (k ∈ k0 :: keys)) as [Hin'|Hin']; try done.
    + exfalso. apply Hin'. by apply list_elem_of_further.
    + apply elem_of_cons in Hin' as [->|?]; [|done].
      apply lookup_insert_eq.
    + apply lookup_insert_ne. intros ->. apply Hin'. apply list_elem_of_here.
Qed.

Lemma nullLiteral_lookup keys k :
  nullLiteral keys !! k = if decide (k ∈ keys) then Some Null else None.
Proof. unfold nullLiteral. by rewrite nullFold_lookup, lookup_empty. Qed.

Lemma fromEntries_null_fold keys m :
  fold_left (fun o e => <[ fst e := snd e ]> o)
            (map (fun key => (key, Null)) keys) m
  = fold_left (fun o k0 => <[ k0 := Null ]> o) keys m.
Proof. revert m. induction keys as [|k0 keys IH]; intros m; simpl; [done|apply IH]. Qed.

Lemma createStateFromKeys_nullLiteral keys :
  createStateFromKeys keys = nullLiteral keys.
Proof. apply fromEntries_null_fold. Qed.

Lemma initialDraftState_fold (fields : FieldConfig) m :
  fold_left (fun acc field => <[ key field := Null ]> acc) fields m
  = fold_left (fun o k0 => <[ k0 := Null ]> o) (fieldKeys fields) m.
Proof.
  revert m. induction fields as [|f fields IH]; intros m; simpl; [done|apply IH].
Qed.

Lemma initialDraftState_nullLiteral (fields : FieldConfig) :
  initialDraftState fields = nullLiteral (fieldKeys fields).
Proof. apply initialDraftState_fold. Qed.

Lemma nullLiteral_dom keys : dom (nullLiteral keys) = list_to_set keys.
Proof.
  apply set_eq. intros k.
  rewrite elem_of_dom, nullLiteral_lookup, elem_of_list_to_set.
  destruct (decide (k ∈ keys)) as [Hin|Hin]; split; intros H'; done.
Qed.

Lemma nullLiteral_values keys k v :
  nullLiteral keys !! k = Some v → v = Null.
Proof. rewrite nullLiteral_lookup. case_decide; congruence. Qed.

(** For any list of keys, [createStateFromKeys] yields exactly those keys,
    each bound to [null]. *)
Lemma createStateFromKeys_spec keys :
  dom (createStateFromKeys keys) = list_to_set keys
  ∧ ∀ k, k ∈ keys → createStateFromKeys keys !! k = Some Null.
Proof.
  rewrite createStateFromKeys_nullLiteral. split; [apply nullLiteral_dom|].
  intros k Hk. rewrite nullLiteral_lookup. by rewrite decide_True.
Qed.

End BlankRecords.

Lemma blank_derivedFrom (fields : FieldConfig) :
  derivedFrom (createStateFromKeys (fieldKeys fields)) fields.
Proof. apply createStateFromKeys_spec. Qed.

(** The literal drafts [App] starts from are the derived blank records. *)
Lemma initialDraftData_derived :
  generalDraft initialDraftData = createStateFromKeys (fieldKeys GENERAL_INFORMATION)
  ∧ educationDraft initialDraftData = createStateFromKeys (fieldKeys EDUCATIONAL_EXPERIENCE)
  ∧ practicalDraft initialDraftData = createStateFromKeys (fieldKeys PRACTICAL_EXPERIENCE).
Proof. by rewrite !createStateFromKeys_nullLiteral. Qed.

(** Within each registered field list the keys are pairwise distinct. *)
Lemma registered_keys_NoDup : Forall (fun S => NoDup (fieldKeys S)) registered.
Proof.
  unfold registered.
  repeat (apply Forall_cons; split); try apply Forall_nil;
    apply (bool_decide_unpack _); by vm_compute.
Qed.

(** C2: for every registered field list [S], the blank record
    [createStateFromKeys(pluck(S, 'key'))] has as its key set exactly the
    set of [key] values of [S]; every key of [S] is bound to [null]; no
    value is anything but [null], in particular none is the empty string;
    and the initial [draftState] of the form section for [S] is that same
    record. *)
Theorem deriveBlankRecord_keys_all_null (S : FieldConfig) :
  S ∈ registered →
  let R := createStateFromKeys (pluck S key) in
  dom R = list_to_set (pluck S key)
  ∧ (∀ k, k ∈ pluck S key → R !! k = Some Null)
  ∧ (∀ k v, R !! k = Some v → v = Null ∧ v ≠ Str "")
  ∧ initialDraftState S = R.
Proof.
  intros _ R. subst R. split; [|split; [|split]].
  - apply createStateFromKeys_spec.
  - apply createStateFromKeys_spec.
  - intros k v Hkv. rewrite createStateFromKeys_nullLiteral in Hkv.
    apply nullLiteral_values in Hkv. by subst v.
  - unfold pluck. fold (fieldKeys S).
    by rewrite initialDraftState_nullLiteral, createStateFromKeys_nullLiteral.
Qed.

Lemma deriveBlankRecord_keys_all_null_witness :
  dom blankGeneral = list_to_set (pluck GENERAL_INFORMATION key)
  ∧ (∀ k, k ∈ pluck GENERAL_INFORMATION key → blankGeneral !! k = Some Null)
  ∧ (∀ k v, blankGeneral !! k = Some v → v = Null ∧ v ≠ Str "")
  ∧ initialDraftState GENERAL_INFORMATION = blankGeneral.
Proof.
  apply (deriveBlankRecord_keys_all_null GENERAL_INFORMATION).
  unfold registered. apply list_elem_of_here.
Defined.

(* ===================================================================== *)
(** ** Field updates *)
(* ===================================================================== *)

Section FieldUpdates.

Implicit Types (R : FormValues) (k v : string) (c : Store.cell).

Lemma updateField_unfold k v R : updateField k v R = <[ k := Str v ]> R.
Proof. reflexivity. Qed.

(** [handleInputChange] of the form section and [updateField] of
    [utils/state.ts] are the same update. *)
Lemma handleInputChange_updateField k v R :
  handleInputChange k v R = updateField k v R.
Proof. reflexivity. Qed.

Lemma updateField_lookup_eq k v R : updateField k v R !! k = Some (Str v).
Proof. apply lookup_insert_eq. Qed.

Lemma updateField_lookup_ne k k' v R :
  k' ≠ k → updateField k v R !! k' = R !! k'.
Proof. intros Hne. by apply lookup_insert_ne. Qed.

Lemma updateField_dom k v R : dom (updateField k v R) = {[ k ]} ∪ dom R.
Proof. apply dom_insert_L. Qed.

(** What the object literal does to the store: one new object, holding
    the updated copy; everything that was there stays as it was. *)
Lemma store_updateField k v c R :
  Store.contents c = Some R →
  ∃ c', Store.updateField k v c = Some c'
        ∧ (Store.current c' ∉ dom (Store.store c))
        ∧ Store.contents c' = Some (updateField k v R)
        ∧ (∀ r, r ∈ dom (Store.store c) →
                Store.store c' !! r = Store.store c !! r).
Proof.
  intros HR. unfold Store.contents in HR.
  unfold Store.updateField, Store.createFieldUpdater, Store.setState,
    Store.spreadWith.
  rewrite HR. unfold Store.alloc.
  set (r' := fresh (dom (Store.store c))).
  assert (Hfresh : r' ∉ dom (Store.store c)) by apply is_fresh.
  eexists. split; [reflexivity|]. simpl.
  split; [done|]. split.
  - unfold Store.contents. simpl. apply lookup_insert_eq.
  - intros r Hr. apply lookup_insert_ne. by intros ->.
Qed.

Lemma store_updateField_keeps_input k v c c' R :
  Store.contents c = Some R →
  Store.updateField k v c = Some c' →
  Store.store c' !! Store.current c = Some R.
Proof.
  intros HR Hc'. destruct (store_updateField k v c R HR) as (c2 & Heq & _ & _ & Hsame).
  rewrite Heq in Hc'. injection Hc' as <-.
  rewrite Hsame; [done|]. apply elem_of_dom. by eexists.
Qed.

End FieldUpdates.

(** C3: for a record [R] held in a state cell, with the keys of a field
    list [S], a key [k] of [S] and a string [v], [updateField(k, v)]
    succeeds and puts into the cell a new record that binds [k] to [v],
    agrees with [R] on every other key and still has exactly the keys of
    [S]; the object [R] itself is still in the store, unchanged, as is every
    other object.  [handleInputChange] performs the same update. *)
Theorem applyFieldUpdate_known_key
    (S : FieldConfig) (c : Store.cell) (R : FormValues) (k v : string) :
  Store.contents c = Some R →
  derivedFrom R S →
  k ∈ keySet S →
  ∃ c' R',
    Store.updateField k v c = Some c'
    ∧ Store.contents c' = Some R'
    ∧ R' = updateField k v R
    ∧ R' = handleInputChange k v R
    ∧ R' !! k = Some (Str v)
    ∧ (∀ k', k' ≠ k → R' !! k' = R !! k')
    ∧ derivedFrom R' S
    ∧ Store.store c' !! Store.current c = Some R
    ∧ (∀ r, r ∈ dom (Store.store c) → Store.store c' !! r = Store.store c !! r).
Proof.
  intros HR Hder Hk.
  destruct (store_updateField k v c R HR) as (c' & Hupd & _ & Hcont & Hsame).
  exists c', (updateField k v R). repeat split; try done.
  - apply updateField_lookup_eq.
  - intros k' Hne. by apply updateField_lookup_ne.
  - unfold derivedFrom in *. rewrite updateField_dom, Hder.
    apply subseteq_union_1_L. by apply singleton_subseteq_l.
  - by eapply store_updateField_keeps_input.
Qed.

Lemma applyFieldUpdate_known_key_witness :
  ∃ c' R',
    Store.updateField "email" "a@b.com" blankGeneralCell = Some c'
    ∧ Store.contents c' = Some R'
    ∧ R' = updateField "email" "a@b.com" blankGeneral
    ∧ R' = handleInputChange "email" "a@b.com" blankGeneral
    ∧ R' !! "email" = Some (Str "a@b.com")
    ∧ (∀ k', k' ≠ "email" → R' !! k' = blankGeneral !! k')
    ∧ derivedFrom R' GENERAL_INFORMATION
    ∧ Store.store c' !! Store.current blankGeneralCell = Some blankGeneral
    ∧ (∀ r, r ∈ dom (Store.store blankGeneralCell) →
            Store.store c' !! r = Store.store blankGeneralCell !! r).
Proof.
  apply (applyFieldUpdate_known_key GENERAL_INFORMATION blankGeneralCell
           blankGeneral "email" "a@b.com").
  - vm_compute. reflexivity.
  - vm_compute. reflexivity.
  - apply (bool_decide_unpack _). vm_compute. exact I.
Defined.

(** Scenario A of the specification. *)
Example scenario_A :
  updateField "email" "a@b.com" blankGeneral
  = <[ "email" := Str "a@b.com" ]>
      (<[ "phoneNumber" := Null ]> (<[ "email" := Null ]> (<[ "name" := Null ]> ∅))).
Proof. reflexivity. Qed.

(** C1, as stated, fails: on the blank general-information record the key
    [nonExistentKey], which the field list does not declare, is accepted;
    the update returns, the result binds the key to the value, and its key
    set is no longer that of the field list. *)
Lemma applyFieldUpdate_unknown_key_is_applied :
  derivedFrom blankGeneral GENERAL_INFORMATION
  ∧ ("nonExistentKey" ∉ keySet GENERAL_INFORMATION)
  ∧ is_Some (Store.updateField "nonExistentKey" "x" blankGeneralCell)
  ∧ updateField "nonExistentKey" "x" blankGeneral !! "nonExistentKey" = Some (Str "x")
  ∧ handleInputChange "nonExistentKey" "x" blankGeneral !! "nonExistentKey" = Some (Str "x")
  ∧ ¬ (dom (updateField "nonExistentKey" "x" blankGeneral) ⊆ keySet GENERAL_INFORMATION)
  ∧ ¬ derivedFrom (updateField "nonExistentKey" "x" blankGeneral) GENERAL_INFORMATION.
Proof.
  assert (Hnot : "nonExistentKey" ∉ keySet GENERAL_INFORMATION).
  { apply (bool_decide_unpack _). vm_compute. exact I. }
  assert (Hin : "nonExistentKey" ∈ dom (updateField "nonExistentKey" "x" blankGeneral)).
  { rewrite updateField_dom. apply elem_of_union_l. by apply elem_of_singleton. }
  split; [apply blank_derivedFrom|]. split; [done|].
  split; [by eexists|]. split; [apply updateField_lookup_eq|].
  split; [apply updateField_lookup_eq|]. split.
  - intros Hsub. apply Hnot. by apply Hsub.
  - unfold derivedFrom. intros Heq. apply Hnot. by rewrite <- Heq.
Qed.

(** C1, amended: there is no run-time check of the key.  For a record [R]
    held in a state cell, with the keys of a field list [S], and a key [k]
    that [S] does not declare, [updateField(k, v)] (and likewise
    [handleInputChange]) returns normally; the new record binds [k] to [v],
    agrees with [R] on every other key, and has the keys of [S] together
    with [k], so it is no longer derived from [S].  The object [R] itself
    stays in the store unchanged. *)
Theorem applyFieldUpdate_unknown_key
    (S : FieldConfig) (c : Store.cell) (R : FormValues) (k v : string) :
  Store.contents c = Some R →
  derivedFrom R S →
  k ∉ keySet S →
  ∃ c' R',
    Store.updateField k v c = Some c'
    ∧ Store.contents c' = Some R'
    ∧ R' = updateField k v R
    ∧ R' = handleInputChange k v R
    ∧ R' !! k = Some (Str v)
    ∧ (∀ k', k' ≠ k → R' !! k' = R !! k')
    ∧ dom R' = {[ k ]} ∪ keySet S
    ∧ ¬ derivedFrom R' S
    ∧ Store.store c' !! Store.current c = Some R.
Proof.
  intros HR Hder Hk.
  destruct (store_updateField k v c R HR) as (c' & Hupd & _ & Hcont & Hsame).
  exists c', (updateField k v R). repeat split; try done.
  - apply updateField_lookup_eq.
  - intros k' Hne. by apply updateField_lookup_ne.
  - unfold derivedFrom in Hder. by rewrite updateField_dom, Hder.
  - unfold derivedFrom in *. rewrite updateField_dom, Hder. intros Heq.
    apply Hk. rewrite <- Heq. apply elem_of_union_l. by apply elem_of_singleton.
  - by eapply store_updateField_keeps_input.
Qed.

Lemma applyFieldUpdate_unknown_key_witness :
  ∃ c' R',
    Store.updateField "nonExistentKey" "x" blankGeneralCell = Some c'
    ∧ Store.contents c' = Some R'
    ∧ R' = updateField "nonExistentKey" "x" blankGeneral
    ∧ R' = handleInputChange "nonExistentKey" "x" blankGeneral
    ∧ R' !! "nonExistentKey" = Some (Str "x")
    ∧ (∀ k', k' ≠ "nonExistentKey" → R' !! k' = blankGeneral !! k')
    ∧ dom R' = {[ "nonExistentKey" ]} ∪ keySet GENERAL_INFORMATION
    ∧ ¬ derivedFrom R' GENERAL_INFORMATION
    ∧ Store.store c' !! Store.current blankGeneralCell = Some blankGeneral.
Proof.
  apply (applyFieldUpdate_unknown_key GENERAL_INFORMATION blankGeneralCell
           blankGeneral "nonExistentKey" "x").
  - vm_compute. reflexivity.
  - vm_compute. reflexivity.
  - apply (bool_decide_unpack _). vm_compute. exact I.
Defined.

(** C5: applying the same update [(k, v)] twice in a row gives the same
    record as applying it once, for [updateField] and for
    [handleInputChange], on records as values and on a state cell (whose
    second update leaves a record equal to the one left by the first). *)
Theorem applyFieldUpdate_idempotent (R : FormValues) (c : Store.cell) (k v : string) :
  updateField k v (updateField k v R) = updateField k v R
  ∧ handleInputChange k v (handleInputChange k v R) = handleInputChange k v R
  ∧ (Store.updateField k v c ≫= Store.updateField k v) ≫= Store.contents
    = Store.updateField k v c ≫= Store.contents.
Proof.
  assert (Hval : ∀ R0, updateField k v (updateField k v R0) = updateField k v R0).
  { intros R0. rewrite !updateField_unfold. apply insert_insert_eq. }
  split; [apply Hval|]. split; [apply Hval|].
  destruct (Store.contents c) as [R0|] eqn:HR.
  - destruct (store_updateField k v c R0 HR) as (c1 & Hc1 & _ & Hcont1 & _).
    destruct (store_updateField k v c1 _ Hcont1) as (c2 & Hc2 & _ & Hcont2 & _).
    rewrite Hc1. simpl. rewrite Hc2. simpl. by rewrite Hcont1, Hcont2, Hval.
  - unfold Store.contents in HR.
    unfold Store.updateField, Store.createFieldUpdater, Store.setState,
      Store.spreadWith. by rewrite HR.
Qed.

(* ===================================================================== *)
(** ** Submission *)
(* ===================================================================== *)

Lemma handleAddToCV_lastSubmitted (sec : SectionName) (fieldData : FormValues)
    (s : AppState) :
  lastSubmitted sec (cvData (handleAddToCVOf sec fieldData s)) = Some fieldData.
Proof. destruct sec; simpl; [done | apply last_snoc | apply last_snoc]. Qed.

(** C4, as stated, fails: submitting the blank general-information record
    stores that very record, whose values are all [null]; none of them is
    the empty string. *)
Lemma submitted_blank_record_holds_null :
  generalInformation
    (cvData (handleButtonClick addGeneralInformation blankGeneral initialApp))
  = Some blankGeneral
  ∧ generalInformation (cvData (app (dispatch (AddClick General) mounted)))
    = Some blankGeneral
  ∧ blankGeneral !! "name" = Some Null
  ∧ blankGeneral !! "name" ≠ Some (Str "").
Proof. repeat split; try reflexivity. by vm_compute. Qed.

(** C4, amended: submission hands the draft record to the collection as it
    is.  For every section, [handleButtonClick] stores exactly the record it
    is given (and the Add button gives it the section's current
    [draftState]), so every key is carried over with its value, and [null]
    stays [null]: submitting the blank record of the section stores a record
    whose values are all [null].  The empty string only appears where a
    [null] draft value is displayed ([?? '']). *)
Theorem submission_stores_draft_unchanged
    (sec : SectionName) (fieldData : FormValues) (s : AppState) (u : UI) :
  lastSubmitted sec (cvData (handleButtonClick (handleAddToCVOf sec) fieldData s))
  = Some fieldData
  ∧ lastSubmitted sec (cvData (app (dispatch (AddClick sec) u))) = Some (formOf sec u)
  ∧ lastSubmitted sec (cvData (app (dispatch (AddClick sec) mounted)))
    = Some (createStateFromKeys (pluck (fieldsOf sec) key))
  ∧ (∀ k, k ∈ pluck (fieldsOf sec) key →
          createStateFromKeys (pluck (fieldsOf sec) key) !! k = Some Null
          ∧ orEmpty (createStateFromKeys (pluck (fieldsOf sec) key) !! k) = "").
Proof.
  split; [apply handleAddToCV_lastSubmitted|].
  split; [apply handleAddToCV_lastSubmitted|].
  split.
  - simpl. unfold handleButtonClick. rewrite handleAddToCV_lastSubmitted.
    f_equal. destruct sec; apply initialDraftState_nullLiteral.
  - intros k Hk.
    destruct (createStateFromKeys_spec (pluck (fieldsOf sec) key)) as [_ Hnull].
    by rewrite (Hnull k Hk).
Qed.

(** Scenario B of the specification, as the code runs it: the record of
    scenario A, put into an empty practical-experience list, gives a list of
    length one, and the stored record still has [name] unset. *)
Example scenario_B :
  let r := updateField "email" "a@b.com" blankGeneral in
  practicalExperience (cvData (addPracticalExperience r initialApp)) = [r]
  ∧ r !! "name" = Some Null ∧ r !! "email" = Some (Str "a@b.com").
Proof. repeat split; reflexivity. Qed.

(* ===================================================================== *)
(** ** The collection *)
(* ===================================================================== *)

Section Collection.

Implicit Types (u : UI) (s : AppState) (e : Event) (r : FormValues).

Lemma extends_refl cv : extends cv cv.
Proof. by repeat split. Qed.

Lemma extends_trans cv1 cv2 cv3 :
  extends cv1 cv2 → extends cv2 cv3 → extends cv1 cv3.
Proof.
  intros (He1 & Hp1 & Hg1) (He2 & Hp2 & Hg2). repeat split.
  - by etrans.
  - by etrans.
  - auto.
Qed.

Lemma grows_extends cv cv' : grows cv cv' → extends cv cv'.
Proof.
  intros [cv0 r|cv0 r|cv0 r]; repeat split; simpl;
    try done; try (by eexists); by apply prefix_app_r.
Qed.

Lemma dispatch_cvData e u :
  cvData (app (dispatch e u)) = cvData (app u)
  ∨ grows (cvData (app u)) (cvData (app (dispatch e u))).
Proof.
  destruct e as [sec name value|sec|].
  - left. by destruct sec.
  - right. destruct sec; simpl; constructor.
  - by left.
Qed.

Lemma dispatch_extends e u :
  extends (cvData (app u)) (cvData (app (dispatch e u))).
Proof.
  destruct (dispatch_cvData e u) as [->|Hg];
    [apply extends_refl | by apply grows_extends].
Qed.

Lemma run_extends events u :
  extends (cvData (app u)) (cvData (app (run events u))).
Proof.
  revert u. induction events as [|e events IH]; intros u; simpl.
  - apply extends_refl.
  - eapply extends_trans; [apply dispatch_extends | apply IH].
Qed.

Lemma extends_length cv cv' :
  extends cv cv' →
  (List.length (educationalExperience cv)
     ≤ List.length (educationalExperience cv'))%nat
  ∧ (List.length (practicalExperience cv)
       ≤ List.length (practicalExperience cv'))%nat.
Proof. intros (He & Hp & _). split; by apply prefix_length. Qed.

End Collection.

(** C6: the collection starts empty: no general-information record and
    empty education and experience lists, also once the page is mounted.
    Every event of the page leaves it as it is or changes it in one of three
    ways: the general-information record is replaced, or one record is
    appended at the end of the education list, or one at the end of the
    experience list.  Hence along every sequence of events the earlier lists
    are prefixes of the later ones (entries and their order are kept, no
    list gets shorter) and a general-information record, once present, stays
    present. *)
Theorem cvData_grows_only (events : list Event) (e : Event) (u : UI) :
  cvData initialApp
  = {| generalInformation := None;
       educationalExperience := [];
       practicalExperience := [] |}
  ∧ cvData (app mounted) = cvData initialApp
  ∧ (cvData (app (dispatch e u)) = cvData (app u)
     ∨ grows (cvData (app u)) (cvData (app (dispatch e u))))
  ∧ extends (cvData (app u)) (cvData (app (run events u)))
  ∧ (List.length (educationalExperience (cvData (app u)))
       ≤ List.length (educationalExperience (cvData (app (run events u)))))%nat
  ∧ (List.length (practicalExperience (cvData (app u)))
       ≤ List.length (practicalExperience (cvData (app (run events u)))))%nat.
Proof.
  split; [reflexivity|]. split; [reflexivity|].
  split; [apply dispatch_cvData|].
  split; [apply run_extends|].
  apply extends_length, run_extends.
Qed.

(** C8: each submission handler changes only its own part of the
    application state.  [addEducationalExperience] leaves the
    general-information record and the practical-experience list as they
    are, [addPracticalExperience] the general-information record and the
    educational-experience list, [addGeneralInformation] both lists; none of
    them touches the drafts or the panel flag. *)
Theorem add_handlers_frame (fieldData : FormValues) (s : AppState) :
  (generalInformation (cvData (addEducationalExperience fieldData s))
     = generalInformation (cvData s)
   ∧ practicalExperience (cvData (addEducationalExperience fieldData s))
     = practicalExperience (cvData s)
   ∧ educationalExperience (cvData (addEducationalExperience fieldData s))
     = (educationalExperience (cvData s) ++ [fieldData])%list)
  ∧ (generalInformation (cvData (addPracticalExperience fieldData s))
       = generalInformation (cvData s)
     ∧ educationalExperience (cvData (addPracticalExperience fieldData s))
       = educationalExperience (cvData s)
     ∧ practicalExperience (cvData (addPracticalExperience fieldData s))
       = (practicalExperience (cvData s) ++ [fieldData])%list)
  ∧ (educationalExperience (cvData (addGeneralInformation fieldData s))
       = educationalExperience (cvData s)
     ∧ practicalExperience (cvData (addGeneralInformation fieldData s))
       = practicalExperience (cvData s)
     ∧ generalInformation (cvData (addGeneralInformation fieldData s))
       = Some fieldData)
  ∧ (∀ add, add ∈ [addEducationalExperience; addPracticalExperience;
                   addGeneralInformation] →
       draftData (add fieldData s) = draftData s
       ∧ isActive (add fieldData s) = isActive s).
Proof.
  split; [by repeat split|]. split; [by repeat split|]. split; [by repeat split|].
  intros add Hadd.
  repeat (apply elem_of_cons in Hadd as [->|Hadd]; [by split|]).
  by apply elem_of_nil in Hadd.
Qed.

(* ===================================================================== *)
(** ** The side panel *)
(* ===================================================================== *)

Section Panel.

Implicit Types (u : UI) (s : AppState) (b : bool).

Lemma toggleOnClick_isActive s : isActive (toggleOnClick s) = negb (isActive s).
Proof. reflexivity. Qed.

Lemma toggleOnClick_twice s : toggleOnClick (toggleOnClick s) = s.
Proof. destruct s as [cv d b]. unfold toggleOnClick, setIsActive. simpl.
       by rewrite negb_involutive. Qed.

Lemma dispatch_toggle_twice u : dispatch ToggleClick (dispatch ToggleClick u) = u.
Proof. destruct u as [a g e p]. simpl. unfold onApp. simpl.
       by rewrite toggleOnClick_twice. Qed.

Lemma asideClassName_cases b :
  asideClassName b = if b then "" else "closed".
Proof. by destruct b. Qed.

Lemma shownOpen_asideClassName b : shownOpen (asideClassName b) = b.
Proof. by destruct b. Qed.

(** Only the toggle changes the flag. *)
Lemma dispatch_isActive e u :
  isActive (app (dispatch e u))
  = match e with
    | ToggleClick => negb (isActive (app u))
    | _ => isActive (app u)
    end.
Proof. destruct e as [sec name value|sec|]; try done; by destruct sec. Qed.

End Panel.

(** C10: a click on the toggle negates [isActive], so two clicks in a row
    give back the state they started from, and so does the page as a whole;
    no other event changes the flag.  What [Aside] renders follows the flag
    in every state, hence after every sequence of events: the panel carries
    the class [closed] exactly when the flag is false, [aria-hidden] is its
    negation, and the toggle's [aria-expanded] is the flag. *)
Theorem toggle_involution (events : list Event) (e : Event) (s : AppState) (u : UI) :
  isActive (toggleOnClick s) = negb (isActive s)
  ∧ toggleOnClick (toggleOnClick s) = s
  ∧ dispatch ToggleClick (dispatch ToggleClick u) = u
  ∧ isActive (app (dispatch e u))
    = match e with
      | ToggleClick => negb (isActive (app u))
      | _ => isActive (app u)
      end
  ∧ shownOpen (renderedAsideClass (run events u)) = isActive (app (run events u))
  ∧ renderedAsideClass (run events u)
    = (if isActive (app (run events u)) then "" else "closed")
  ∧ asideAriaHidden (isActive (app (run events u)))
    = negb (isActive (app (run events u)))
  ∧ renderedAriaExpanded (run events u) = isActive (app (run events u)).
Proof.
  split; [apply toggleOnClick_isActive|].
  split; [apply toggleOnClick_twice|].
  split; [apply dispatch_toggle_twice|].
  split; [apply dispatch_isActive|].
  split; [apply shownOpen_asideClassName|].
  split; [apply asideClassName_cases|].
  by split.
Qed.

(* ===================================================================== *)
(** ** camelToKebab *)
(* ===================================================================== *)

Section CamelToKebab.

Implicit Types (s rest : string) (a b c : ascii).

Ltac by_cases c :=
  destruct c as [[] [] [] [] [] [] [] []]; vm_compute; reflexivity.

Lemma lowerChar_notUpper c : notUpperAZ (lowerChar c) = true.
Proof. by_cases c. Qed.

Lemma lowerChar_isLowered c : isLowered (lowerChar c) = true.
Proof. by_cases c. Qed.


Lemma isCapitalLetter_char c :
  isCapitalLetter (String c EmptyString) = isUpperAZ c.
Proof. by_cases c. Qed.

Lemma toLowerCase_allChars (p : ascii → bool) s :
  (∀ c, p (lowerChar c) = true) → allChars p (toLowerCase s) = true.
Proof. intros Hp. induction s as [|c s IH]; simpl; [done|]. by rewrite Hp, IH. Qed.

Lemma toLowerCase_fixed s :
  allChars isLowered s = true → toLowerCase s = s.
Proof.
  induction s as [|c s IH]; simpl; [done|].
  intros [Hc Hs]%andb_prop. rewrite (IH Hs). f_equal.
  by apply Ascii.eqb_eq.
Qed.

Lemma toLowerCase_idempotent s : toLowerCase (toLowerCase s) = toLowerCase s.
Proof. apply toLowerCase_fixed, toLowerCase_allChars, lowerChar_isLowered. Qed.

(** Without a capital there is nothing for the pattern to match. *)
Lemma replaceCamel_noUpper s :
  allChars notUpperAZ s = true → replaceCamel s = s.
Proof.
  induction s as [|a s IH]; [done|].
  intros [Ha Hs]%andb_prop. destruct s as [|b rest]; [done|].
  change (replaceCamel (String a (String b rest)))
    with (if isLowerOrDigit a && isUpperAZ b
          then String a (String "-" (String b (replaceCamel rest)))
          else String a (replaceCamel (String b rest))).
  assert (Hb : isUpperAZ b = false).
  { simpl in Hs. apply andb_prop in Hs as [Hb _].
    unfold notUpperAZ in Hb. by apply negb_true_iff in Hb. }
  rewrite Hb, andb_false_r. by rewrite (IH Hs).
Qed.




Lemma camelToKebab_notUpper s : allChars notUpperAZ (camelToKebab s) = true.
Proof. apply toLowerCase_allChars, lowerChar_notUpper. Qed.

Lemma camelToKebab_lowered s : allChars isLowered (camelToKebab s) = true.
Proof. apply toLowerCase_allChars, lowerChar_isLowered. Qed.

Lemma camelToKebab_idempotent s :
  camelToKebab (camelToKebab s) = camelToKebab s.
Proof.
  unfold camelToKebab at 1.
  rewrite (replaceCamel_noUpper _ (camelToKebab_notUpper s)).
  apply toLowerCase_idempotent.
Qed.

Lemma firstCapitalFrom_none i s :
  allChars notUpperAZ s = true → firstCapitalFrom i s = (-1)%Z.
Proof.
  revert i. induction s as [|c s IH]; intros i; simpl; [done|].
  intros [Hc Hs]%andb_prop.
  rewrite isCapitalLetter_char.
  unfold notUpperAZ in Hc. apply negb_true_iff in Hc. rewrite Hc. by apply IH.
Qed.

End CamelToKebab.



(* ===================================================================== *)
(** * Further properties of the code *)
(* ===================================================================== *)

(** ** Records from key lists *)

Lemma nullLiteral_eq_of_same_keys (keys keys' : list string) :
  (∀ k, k ∈ keys ↔ k ∈ keys') → nullLiteral keys = nullLiteral keys'.
Proof.
  intros Hsame. apply map_eq. intros k. rewrite !nullLiteral_lookup.
  destruct (decide (k ∈ keys)) as [Hin|Hin];
    destruct (decide (k ∈ keys')) as [Hin'|Hin']; try done.
  - by apply Hsame in Hin.
  - by apply Hsame in Hin'.
Qed.

(** X1: [createStateFromKeys] on any list of keys, also an empty one or one
    with repetitions: a key of the list is bound to [null], any other key
    is absent, and the record has one entry per distinct key. *)
Theorem createStateFromKeys_any_keys (keys : list string) (k : string) :
  createStateFromKeys keys !! k = (if decide (k ∈ keys) then Some Null else None)
  ∧ size (createStateFromKeys keys) = List.length (remove_dups keys)
  ∧ createStateFromKeys [] = ∅
  ∧ createStateFromKeys (keys ++ keys) = createStateFromKeys keys.
Proof.
  rewrite !createStateFromKeys_nullLiteral. split; [apply nullLiteral_lookup|].
  split; [|split; [done|]].
  - rewrite <- size_dom, nullLiteral_dom.
    assert (Hset : (list_to_set keys : gset string) = list_to_set (remove_dups keys)).
    { apply set_eq. intros k0.
      by rewrite !elem_of_list_to_set, elem_of_remove_dups. }
    rewrite Hset. apply size_list_to_set, NoDup_remove_dups.
  - apply nullLiteral_eq_of_same_keys. intros k0. rewrite elem_of_app. tauto.
Qed.

(** X2: the blank record depends only on which keys are listed, not on
    their order or multiplicity. *)
Theorem createStateFromKeys_order_irrelevant (keys keys' : list string) :
  (∀ k, k ∈ keys ↔ k ∈ keys') →
  createStateFromKeys keys = createStateFromKeys keys'.
Proof.
  intros Hsame. rewrite !createStateFromKeys_nullLiteral.
  by apply nullLiteral_eq_of_same_keys.
Qed.

Lemma createStateFromKeys_order_irrelevant_witness :
  createStateFromKeys ["name"; "email"] = createStateFromKeys ["email"; "name"; "email"].
Proof.
  apply (createStateFromKeys_order_irrelevant ["name"; "email"] ["email"; "name"; "email"]).
  intros k. rewrite !elem_of_cons, !elem_of_nil. tauto.
Defined.

(** ** Composition of field updates *)

(** X3: updates of two different keys commute. *)
Theorem updateField_commute (R : FormValues) (k1 k2 v1 v2 : string) :
  k1 ≠ k2 →
  updateField k1 v1 (updateField k2 v2 R) = updateField k2 v2 (updateField k1 v1 R).
Proof. intros Hne. rewrite !updateField_unfold. by apply insert_insert_ne. Qed.

Lemma updateField_commute_witness :
  updateField "name" "Ann" (updateField "email" "a@b.com" blankGeneral)
  = updateField "email" "a@b.com" (updateField "name" "Ann" blankGeneral).
Proof. apply (updateField_commute blankGeneral "name" "email" "Ann" "a@b.com"). done. Defined.

(** X4: of two updates of the same key the later one wins, and writing
    the value a key already has gives back an equal record. *)
Theorem updateField_last_write_wins (R : FormValues) (k v1 v2 : string) :
  updateField k v2 (updateField k v1 R) = updateField k v2 R
  ∧ handleInputChange k v2 (handleInputChange k v1 R) = handleInputChange k v2 R
  ∧ (R !! k = Some (Str v1) → updateField k v1 R = R).
Proof.
  assert (H2 : updateField k v2 (updateField k v1 R) = updateField k v2 R).
  { rewrite !updateField_unfold. apply insert_insert_eq. }
  split; [done|]. split; [done|].
  intros Hk. rewrite updateField_unfold. by apply insert_id.
Qed.

(** X5: after any sequence of updates, a key that none of them names
    still has the value it had, and the keys of the record are the old keys
    together with the keys named. *)
Theorem updateFields_frame (updates : list (string * string)) (R : FormValues) (k : string) :
  k ∉ map fst updates →
  updateFields updates R !! k = R !! k
  ∧ dom (updateFields updates R) = list_to_set (map fst updates) ∪ dom R.
Proof.
  revert R. induction updates as [|[k0 v0] updates IH]; intros R Hk; simpl.
  - split; [done|]. by rewrite union_empty_l_L.
  - apply not_elem_of_cons in Hk as [Hne Hk].
    destruct (IH (updateField k0 v0 R) Hk) as [Hlook Hdom].
    unfold updateFields in *. simpl. split.
    + rewrite Hlook. by apply updateField_lookup_ne.
    + rewrite Hdom, updateField_dom.
      rewrite (assoc_L (∪)). f_equal. apply (comm_L (∪)).
Qed.

Lemma updateFields_frame_witness :
  updateFields [("email", "a@b.com"); ("email", "c@d.org")] blankGeneral !! "name"
  = blankGeneral !! "name"
  ∧ dom (updateFields [("email", "a@b.com"); ("email", "c@d.org")] blankGeneral)
    = list_to_set (map fst [("email", "a@b.com"); ("email", "c@d.org")])
      ∪ dom blankGeneral.
Proof.
  apply (updateFields_frame [("email", "a@b.com"); ("email", "c@d.org")]
           blankGeneral "name").
  apply (bool_decide_unpack _). vm_compute. exact I.
Defined.

(** X6: a sequence of updates of one state cell never fails, leaves in the
    cell the record the same updates give on values, and changes no object
    that was in the store before; a record that was handed on by reference
    therefore keeps its contents whatever is typed afterwards. *)
Theorem storeUpdateFields_keeps_objects
    (updates : list (string * string)) (c : Store.cell) (R : FormValues) :
  Store.contents c = Some R →
  ∃ c', storeUpdateFields updates c = Some c'
        ∧ Store.contents c' = Some (updateFields updates R)
        ∧ (∀ r, r ∈ dom (Store.store c) →
                Store.store c' !! r = Store.store c !! r)
        ∧ Store.store c' !! Store.current c = Some R.
Proof.
  revert c R. induction updates as [|[k v] updates IH]; intros c R HR.
  - exists c. by repeat split.
  - destruct (store_updateField k v c R HR) as (c1 & Hc1 & _ & Hcont1 & Hsame1).
    destruct (IH c1 _ Hcont1) as (c' & Hc' & Hcont' & Hsame' & _).
    assert (Hdom : ∀ r, r ∈ dom (Store.store c) → r ∈ dom (Store.store c1)).
    { intros r Hr. apply elem_of_dom. rewrite (Hsame1 r Hr). by apply elem_of_dom. }
    assert (Hsame : ∀ r, r ∈ dom (Store.store c) →
                         Store.store c' !! r = Store.store c !! r).
    { intros r Hr. rewrite (Hsame' r (Hdom r Hr)). by apply Hsame1. }
    exists c'. simpl. rewrite Hc1. split; [done|]. split; [done|]. split; [done|].
    rewrite Hsame; [done|]. apply elem_of_dom. by eexists.
Qed.

Lemma storeUpdateFields_keeps_objects_witness :
  ∃ c', storeUpdateFields [("email", "a@b.com"); ("name", "Ann")] blankGeneralCell
        = Some c'
        ∧ Store.contents c'
          = Some (updateFields [("email", "a@b.com"); ("name", "Ann")] blankGeneral)
        ∧ (∀ r, r ∈ dom (Store.store blankGeneralCell) →
                Store.store c' !! r = Store.store blankGeneralCell !! r)
        ∧ Store.store c' !! Store.current blankGeneralCell = Some blankGeneral.
Proof.
  apply (storeUpdateFields_keeps_objects
           [("email", "a@b.com"); ("name", "Ann")] blankGeneralCell blankGeneral).
  vm_compute. reflexivity.
Defined.

(** ** What a form section shows *)

Lemma initialDraftState_orEmpty (fields : FieldConfig) (k : string) :
  orEmpty (initialDraftState fields !! k) = "".
Proof.
  rewrite initialDraftState_nullLiteral, nullLiteral_lookup. by case_decide.
Qed.


Lemma renderFields_nameAttr (R : FormValues) (fields : FieldConfig) :
  map nameAttr (renderFields R fields) = fieldKeys fields.
Proof. unfold renderFields, fieldKeys, pluck. rewrite map_map. by apply map_ext. Qed.

(** X8: a form section renders one control per field, in the order of the
    field list; the controls are named by the declared keys, each label
    points at the id of its own control, the id is the kebab form of the
    key, and a control is a [<textarea>] exactly for a field of type
    [textarea]. *)
Theorem renderFields_controls (R : FormValues) (fields : FieldConfig) :
  List.length (renderFields R fields) = List.length fields
  ∧ map nameAttr (renderFields R fields) = pluck fields key
  ∧ map idAttr (renderFields R fields) = map camelToKebab (pluck fields key)
  ∧ map htmlFor (renderFields R fields) = map idAttr (renderFields R fields)
  ∧ map (fun rf => isTextareaControl (control rf)) (renderFields R fields)
    = map isTextareaField fields.
Proof.
  unfold renderFields, pluck. rewrite length_map, !map_map.
  repeat split; try done.
  apply map_ext. intros f. unfold isTextareaField. simpl.
  destruct (type f) as [[]|]; reflexivity.
Qed.

(** ** Invariants of the running page *)

Lemma emitted_input_key (sec : SectionName) (name value : string) :
  emitted (InputChange sec name value) → name ∈ keySet (fieldsOf sec).
Proof.
  simpl. rewrite renderFields_nameAttr. intros Hin.
  unfold keySet. by apply elem_of_list_to_set.
Qed.

Lemma handleInputChange_derived (fields : FieldConfig) (R : FormValues) (name value : string) :
  name ∈ keySet fields → derivedFrom R fields →
  derivedFrom (handleInputChange name value R) fields.
Proof.
  unfold derivedFrom. intros Hin Hder.
  rewrite handleInputChange_updateField, updateField_dom, Hder.
  apply subseteq_union_1_L. by apply singleton_subseteq_l.
Qed.

Lemma dispatch_keeps_derived (e : Event) (u : UI) :
  emitted e →
  formsDerived u ∧ collectionDerived (cvData (app u)) →
  formsDerived (dispatch e u) ∧ collectionDerived (cvData (app (dispatch e u))).
Proof.
  intros He [Hforms Hcv]. destruct e as [sec name value|sec|].
  - apply emitted_input_key in He. split.
    + intros sec'. pose proof (Hforms sec') as Hs'. pose proof (Hforms sec) as Hs.
      destruct sec, sec'; simpl in *; try done;
        by apply handleInputChange_derived.
    + intros sec'. pose proof (Hcv sec') as Hs'. by destruct sec, sec'.
  - split.
    + intros sec'. pose proof (Hforms sec') as Hs'. by destruct sec, sec'.
    + intros sec'. pose proof (Hcv sec') as Hs'. pose proof (Hforms sec) as Hs.
      destruct sec, sec'; simpl in *; try done.
      * by repeat constructor.
      * apply Forall_app. split; [done|]. by repeat constructor.
      * apply Forall_app. split; [done|]. by repeat constructor.
  - split; [intros sec'; apply (Hforms sec') | intros sec'; apply (Hcv sec')].
Qed.

Lemma mounted_derived :
  formsDerived mounted ∧ collectionDerived (cvData (app mounted)).
Proof.
  split.
  - intros sec. unfold derivedFrom.
    destruct sec; simpl; rewrite initialDraftState_nullLiteral;
      apply nullLiteral_dom.
  - intros sec. destruct sec; simpl; constructor.
Qed.

(** X9: as long as input events come from the rendered controls, every
    state the mounted page can reach keeps the records in shape: each
    section's draft has exactly the keys of its field list, and so has every
    record in the collection (the general-information record and every entry
    of the two lists). *)
Theorem reachable_records_derived (events : list Event) :
  Forall emitted events →
  formsDerived (run events mounted)
  ∧ collectionDerived (cvData (app (run events mounted))).
Proof.
  intros Hev. generalize mounted_derived. generalize mounted.
  induction Hev as [|e events He _ IH]; intros u Hu; simpl; [done|].
  apply IH. by apply dispatch_keeps_derived.
Qed.

Lemma reachable_records_derived_witness :
  formsDerived
    (run [InputChange General "email" "a@b.com"; AddClick General;
          InputChange Practical "companyName" "ACME"; AddClick Practical;
          ToggleClick] mounted)
  ∧ collectionDerived
      (cvData (app (run [InputChange General "email" "a@b.com"; AddClick General;
                         InputChange Practical "companyName" "ACME";
                         AddClick Practical; ToggleClick] mounted))).
Proof.
  apply (reachable_records_derived
           [InputChange General "email" "a@b.com"; AddClick General;
            InputChange Practical "companyName" "ACME"; AddClick Practical;
            ToggleClick]).
  repeat (apply Forall_cons; split); try apply Forall_nil; simpl; try exact I;
    apply (bool_decide_unpack _); vm_compute; exact I.
Defined.

Lemma dispatch_keeps_synced (e : Event) (u : UI) : synced u → synced (dispatch e u).
Proof.
  intros Hs. destruct e as [sec name value|sec|].
  - intros sec'. pose proof (Hs sec') as Hs'. by destruct sec, sec'.
  - intros sec'. pose proof (Hs sec') as Hs'. by destruct sec, sec'.
  - intros sec'. apply (Hs sec').
Qed.

(** X10: [App]'s [draftData] is always the drafts of the three sections.
    Mounting the page does not change [App] at all (the literal drafts it
    starts with are the ones the sections derive), and after every sequence
    of events each entry of [draftData] equals the [draftState] of its
    section. *)
Theorem draftData_mirrors_sections (events : list Event) :
  app mounted = initialApp
  ∧ synced mounted
  ∧ synced (run events mounted).
Proof.
  assert (Hm : synced mounted) by (intros sec; by destruct sec).
  split; [reflexivity|]. split; [done|].
  revert Hm. generalize mounted.
  induction events as [|e events IH]; intros u Hu; simpl; [done|].
  apply IH. by apply dispatch_keeps_synced.
Qed.

(** X11: a click on Add does not reset anything: all three drafts and
    [draftData] are as before.  Two clicks in a row on a list section
    therefore append the same record twice, and on the general section the
    second click only repeats the first. *)
Theorem add_click_keeps_drafts (sec sec' : SectionName) (u : UI) :
  formOf sec' (dispatch (AddClick sec) u) = formOf sec' u
  ∧ draftData (app (dispatch (AddClick sec) u)) = draftData (app u)
  ∧ educationalExperience
      (cvData (app (dispatch (AddClick Education) (dispatch (AddClick Education) u))))
    = (educationalExperience (cvData (app u)) ++ [educationForm u; educationForm u])%list
  ∧ practicalExperience
      (cvData (app (dispatch (AddClick Practical) (dispatch (AddClick Practical) u))))
    = (practicalExperience (cvData (app u)) ++ [practicalForm u; practicalForm u])%list
  ∧ cvData (app (dispatch (AddClick General) (dispatch (AddClick General) u)))
    = cvData (app (dispatch (AddClick General) u)).
Proof.
  split; [by destruct sec, sec'|]. split; [by destruct sec|].
  simpl. unfold handleButtonClick. simpl. by rewrite <- !app_assoc.
Qed.

Lemma dispatch_counts (e : Event) (u : UI) :
  List.length (educationalExperience (cvData (app (dispatch e u))))
  = (List.length (educationalExperience (cvData (app u)))
     + (if addsTo Education e then 1 else 0))%nat
  ∧ List.length (practicalExperience (cvData (app (dispatch e u))))
    = (List.length (practicalExperience (cvData (app u)))
       + (if addsTo Practical e then 1 else 0))%nat
  ∧ (is_Some (generalInformation (cvData (app (dispatch e u))))
     ↔ is_Some (generalInformation (cvData (app u))) ∨ addsTo General e = true).
Proof.
  destruct e as [sec name value|sec|]; [destruct sec| destruct sec|]; simpl;
    rewrite ?length_app; simpl; rewrite ?Nat.add_0_r;
    (split; [done|]; split; [done|]); split; intros H; auto;
    try (by destruct H as [H|H]); by eexists.
Qed.

(** X12: the lists grow by exactly one entry per click on the Add button
    of their section and by nothing else: after any sequence of events the
    length of each list is its earlier length plus the number of such
    clicks; and a general-information record is present exactly if it was
    present before or the general Add button was clicked. *)
Theorem run_counts_add_clicks (events : list Event) (u : UI) :
  List.length (educationalExperience (cvData (app (run events u))))
  = (List.length (educationalExperience (cvData (app u)))
     + countIf (addsTo Education) events)%nat
  ∧ List.length (practicalExperience (cvData (app (run events u))))
    = (List.length (practicalExperience (cvData (app u)))
       + countIf (addsTo Practical) events)%nat
  ∧ (is_Some (generalInformation (cvData (app (run events u))))
     ↔ is_Some (generalInformation (cvData (app u)))
       ∨ (0 < countIf (addsTo General) events)%nat).
Proof.
  revert u. induction events as [|e events IH]; intros u; simpl.
  - rewrite !Nat.add_0_r. split; [done|]. split; [done|].
    split; [auto|]. intros [H|H]; [done|]. by apply Nat.lt_irrefl in H.
  - destruct (IH (dispatch e u)) as (He & Hp & Hg).
    destruct (dispatch_counts e u) as (He1 & Hp1 & Hg1).
    rewrite He, Hp, He1, Hp1, Hg, Hg1.
    split; [by rewrite Nat.add_assoc|]. split; [by rewrite Nat.add_assoc|].
    destruct (addsTo General e); simpl.
    + split; intros _; [right; apply Nat.lt_0_succ | left; by right].
    + split.
      * intros [[H|H]|H]; [by left | done | by right].
      * intros [H|H]; [left; by left | by right].
Qed.

(** X13: the panel flag after a sequence of events is the flag before,
    flipped once for every click on the toggle: it has changed exactly when
    the number of toggle clicks is odd. *)
Theorem run_toggle_parity (events : list Event) (u : UI) :
  isActive (app (run events u))
  = xorb (isActive (app u)) (Nat.odd (countIf isToggle events)).
Proof.
  revert u. induction events as [|e events IH]; intros u; simpl.
  - by rewrite xorb_false_r.
  - rewrite IH, dispatch_isActive. destruct e as [sec name value|sec|]; simpl.
    + done.
    + done.
    + rewrite Nat.odd_succ, <- Nat.negb_odd.
      by destruct (isActive (app u)), (Nat.odd (countIf isToggle events)).
Qed.

(** X14: the handlers of [App] compose without interference.  Submissions
    to different sections commute, a draft update commutes with every
    submission and with a draft update of another section, the toggle
    commutes with all of them; a second general-information submission
    replaces the first, and a second update of the same draft replaces the
    first. *)
Theorem app_handlers_commute (a b : FormValues) (s : AppState) :
  addEducationalExperience a (addPracticalExperience b s)
  = addPracticalExperience b (addEducationalExperience a s)
  ∧ addGeneralInformation a (addEducationalExperience b s)
    = addEducationalExperience b (addGeneralInformation a s)
  ∧ addGeneralInformation a (addPracticalExperience b s)
    = addPracticalExperience b (addGeneralInformation a s)
  ∧ (∀ upd add,
       upd ∈ [updateGeneralDraft; updateEducationalDraft; updatePracticalDraft] →
       add ∈ [addGeneralInformation; addEducationalExperience; addPracticalExperience] →
       upd a (add b s) = add b (upd a s)
       ∧ toggleOnClick (upd a s) = upd a (toggleOnClick s)
       ∧ toggleOnClick (add b s) = add b (toggleOnClick s)
       ∧ upd b (upd a s) = upd b s)
  ∧ updateGeneralDraft a (updateEducationalDraft b s)
    = updateEducationalDraft b (updateGeneralDraft a s)
  ∧ updateGeneralDraft a (updatePracticalDraft b s)
    = updatePracticalDraft b (updateGeneralDraft a s)
  ∧ updateEducationalDraft a (updatePracticalDraft b s)
    = updatePracticalDraft b (updateEducationalDraft a s)
  ∧ addGeneralInformation b (addGeneralInformation a s) = addGeneralInformation b s.
Proof.
  split; [done|]. split; [done|]. split; [done|]. split; [|by repeat split].
  intros upd add Hupd Hadd.
  repeat (apply elem_of_cons in Hupd as [->|Hupd]);
    try (by apply elem_of_nil in Hupd);
    repeat (apply elem_of_cons in Hadd as [->|Hadd]);
    try (by apply elem_of_nil in Hadd); by repeat split.
Qed.

(** ** Text helpers *)

Lemma firstCapitalFrom_cases (i : Z) (s : string) :
  (firstCapitalFrom i s = (-1)%Z ∧ allChars notUpperAZ s = true)
  ∨ (∃ n c, firstCapitalFrom i s = (i + Z.of_nat n)%Z
            ∧ (n < String.length s)%nat
            ∧ String.get n s = Some c ∧ isUpperAZ c = true
            ∧ allChars notUpperAZ (String.substring 0 n s) = true).
Proof.
  revert i. induction s as [|c s IH]; intros i; [by left|].
  simpl firstCapitalFrom. rewrite isCapitalLetter_char.
  destruct (isUpperAZ c) eqn:Hc.
  - right. exists 0%nat, c. simpl. rewrite Z.add_0_r.
    repeat split; try done. apply Nat.lt_0_succ.
  - destruct (IH (i + 1)%Z) as [[Hr Hall]|(n & c' & Hr & Hn & Hget & Hup & Hall)].
    + left. split; [done|]. simpl. unfold notUpperAZ at 1. by rewrite Hc.
    + right. exists (S n), c'. simpl. unfold notUpperAZ at 1. rewrite Hc, Hr.
      repeat split; try done.
      * lia.
      * lia.
Qed.

(** X15: [getFirstCapitalIndex] returns [-1] exactly when the string has
    no capital [A]-[Z], in particular for the empty string; otherwise it
    returns an index inside the string at which a capital stands and before
    which there is none. *)
Theorem getFirstCapitalIndex_correct (s : string) :
  getFirstCapitalIndex "" = (-1)%Z
  ∧ (getFirstCapitalIndex s = (-1)%Z ↔ allChars notUpperAZ s = true)
  ∧ (getFirstCapitalIndex s = (-1)%Z
     ∨ ∃ n c, getFirstCapitalIndex s = Z.of_nat n
              ∧ (n < String.length s)%nat
              ∧ String.get n s = Some c ∧ isUpperAZ c = true
              ∧ allChars notUpperAZ (String.substring 0 n s) = true).
Proof.
  split; [done|]. unfold getFirstCapitalIndex.
  destruct (firstCapitalFrom_cases 0 s) as [[Hr Hall]|(n & c & Hr & Hn & Hget & Hup & Hall)].
  - split; [by split|by left].
  - rewrite Z.add_0_l in Hr. split.
    + split.
      * intros Hneg. rewrite Hr in Hneg.
        pose proof (Nat2Z.is_nonneg n) as Hnn. rewrite Hneg in Hnn.
        by apply Z.le_ngt in Hnn.
      * intros Hall'. apply (firstCapitalFrom_none 0) in Hall'.
        rewrite Hr in Hall'. pose proof (Nat2Z.is_nonneg n) as Hnn.
        rewrite Hall' in Hnn. by apply Z.le_ngt in Hnn.
    + right. by exists n, c.
Qed.

(** X16: [isCapitalLetter] compares strings, not characters.  The empty
    string is not a capital letter; a longer string counts as one exactly
    when its first character is a capital and it is not [Z] followed by
    anything: [isCapitalLetter("Apple")] is true, [isCapitalLetter("Zebra")]
    is false. *)
Theorem isCapitalLetter_strings (c : ascii) (rest : string) :
  isCapitalLetter "" = false
  ∧ isCapitalLetter (String c rest)
    = isUpperAZ c && (negb (Ascii.eqb c "Z") || String.eqb rest "")
  ∧ isCapitalLetter "Apple" = true
  ∧ isCapitalLetter "Zebra" = false.
Proof.
  split; [done|]. split; [|by split].
  destruct rest as [|b r];
    destruct c as [[] [] [] [] [] [] [] []]; vm_compute; reflexivity.
Qed.

Lemma isLowered_notUpper (c : ascii) : isLowered c = true → notUpperAZ c = true.
Proof.
  destruct c as [[] [] [] [] [] [] [] []]; vm_compute; intros; congruence.
Qed.

Lemma allChars_impl (p q : ascii → bool) (s : string) :
  (∀ c, p c = true → q c = true) → allChars p s = true → allChars q s = true.
Proof.
  intros Hpq. induction s as [|c s IH]; simpl; [done|].
  intros [Hc Hs]%andb_prop. by rewrite (Hpq c Hc), (IH Hs).
Qed.

Lemma camelToKebab_fixed_below256 (s : string) :
  camelToKebab s = s ↔ allChars isLowered s = true.
Proof.
  split.
  - intros Hfix. rewrite <- Hfix. apply camelToKebab_lowered.
  - intros Hlow. unfold camelToKebab.
    rewrite replaceCamel_noUpper by (by apply (allChars_impl isLowered), Hlow;
                                      apply isLowered_notUpper).
    by apply toLowerCase_fixed.
Qed.

Lemma toLowerCase_length (s : string) : String.length (toLowerCase s) = String.length s.
Proof. induction s as [|c s IH]; simpl; [done|by rewrite IH]. Qed.

Lemma replaceCamel_length_both (s : string) :
  (String.length (replaceCamel s) = (String.length s + countMatches s)%nat
   ∧ (2 * countMatches s ≤ String.length s)%nat)
  ∧ ∀ a, String.length (replaceCamel (String a s))
         = (String.length (String a s) + countMatches (String a s))%nat
         ∧ (2 * countMatches (String a s) ≤ String.length (String a s))%nat.
Proof.
  induction s as [|b rest [[IHlen IHcnt] IHa]].
  - split; [split; [done|simpl; lia]|]. intros a. simpl. lia.
  - split; [apply IHa|]. intros a.
    destruct (IHa b) as [Hlen Hcnt].
    change (replaceCamel (String a (String b rest)))
      with (if isLowerOrDigit a && isUpperAZ b
            then String a (String "-" (String b (replaceCamel rest)))
            else String a (replaceCamel (String b rest))).
    change (countMatches (String a (String b rest)))
      with (if isLowerOrDigit a && isUpperAZ b
            then S (countMatches rest)
            else countMatches (String b rest)).
    destruct (isLowerOrDigit a && isUpperAZ b).
    + cbn [String.length]. rewrite IHlen. lia.
    + cbn [String.length] in *. rewrite Hlen. lia.
Qed.


Lemma sentenceFrom_notUpper (index : nat) (s : string) :
  allChars notUpperAZ (sentenceFrom (S index) s) = true.
Proof.
  revert index. induction s as [|c s IH]; intros index; simpl; [done|].
  destruct (isUpperAZ c) eqn:Hc; simpl.
  - by rewrite lowerChar_notUpper, IH.
  - unfold notUpperAZ at 1. by rewrite Hc, IH.
Qed.

Lemma sentenceFrom_fixed (index : nat) (s : string) :
  allChars notUpperAZ s = true → sentenceFrom index s = s.
Proof.
  revert index. induction s as [|c s IH]; intros index; simpl; [done|].
  intros [Hc Hs]%andb_prop. unfold notUpperAZ in Hc. apply negb_true_iff in Hc.
  by rewrite Hc, IH.
Qed.

(** X19: [camelCaseToSentence] keeps the first character as it is and
    leaves no capital [A]-[Z] behind it, so [getFirstCapitalIndex] of the
    result is [0] or [-1]; applying it twice is the same as applying it
    once; [phoneNumber] becomes [phone number] and a leading capital
    stays. *)
Theorem camelCaseToSentence_properties (c : ascii) (s : string) :
  camelCaseToSentence (String c s) = String c (sentenceFrom 1 s)
  ∧ allChars notUpperAZ (sentenceFrom 1 s) = true
  ∧ getFirstCapitalIndex (camelCaseToSentence (String c s))
    = (if isUpperAZ c then 0 else -1)%Z
  ∧ camelCaseToSentence (camelCaseToSentence (String c s))
    = camelCaseToSentence (String c s)
  ∧ camelCaseToSentence "" = ""
  ∧ camelCaseToSentence "phoneNumber" = "phone number"
  ∧ camelCaseToSentence "FieldOfStudy" = "Field of study".
Proof.
  assert (Hhead : camelCaseToSentence (String c s) = String c (sentenceFrom 1 s)).
  { unfold camelCaseToSentence. simpl. by destruct (isUpperAZ c). }
  pose proof (sentenceFrom_notUpper 0 s) as Htail.
  split; [done|]. split; [done|]. split; [|split; [|by repeat split]].
  - rewrite Hhead. unfold getFirstCapitalIndex. simpl.
    rewrite isCapitalLetter_char. destruct (isUpperAZ c); [done|].
    by apply firstCapitalFrom_none.
  - rewrite Hhead. unfold camelCaseToSentence. simpl.
    rewrite (sentenceFrom_fixed 1 _ Htail). by destruct (isUpperAZ c).
Qed.



Lemma append_length (a b : string) :
  String.length (a +:+ b) = (String.length a + String.length b)%nat.
Proof. induction a as [|c a IH]; simpl; [done|by rewrite IH]. Qed.

(** X21: [concatenateStringArray] puts exactly one space between
    neighbours and none at the ends: the result is as long as the strings
    together plus one less than their number; the empty array gives the
    empty string and a single string is returned as it is. *)
Theorem concatenateStringArray_length (arrayOfStrings : list string) (s : string) :
  String.length (concatenateStringArray arrayOfStrings)
  = (sum_list (map String.length arrayOfStrings)
     + Nat.pred (List.length arrayOfStrings))%nat
  ∧ concatenateStringArray [] = ""
  ∧ concatenateStringArray [s] = s
  ∧ concatenateStringArray (s :: arrayOfStrings)
    = match arrayOfStrings with
      | [] => s
      | _ => s +:+ " " +:+ concatenateStringArray arrayOfStrings
      end.
Proof.
  split; [|split; [done|split; [done|by destruct arrayOfStrings]]].
  induction arrayOfStrings as [|a l IH]; [done|].
  destruct l as [|b l]; [simpl; lia|].
  change (concatenateStringArray (a :: b :: l))
    with (a +:+ " " +:+ concatenateStringArray (b :: l)).
  rewrite !append_length, IH. simpl. lia.
Qed.

(** X22: typing into a control of one section touches that section only:
    the drafts of the other sections and their copies in [draftData] stay
    as they are (also for the keys [dateStarted] and [dateEnded], which two
    sections share), and neither the collection nor the panel flag
    changes. *)
Theorem input_change_isolated
    (sec sec' : SectionName) (name value : string) (u : UI) :
  sec ≠ sec' →
  formOf sec' (dispatch (InputChange sec name value) u) = formOf sec' u
  ∧ draftOf sec' (draftData (app (dispatch (InputChange sec name value) u)))
    = draftOf sec' (draftData (app u))
  ∧ cvData (app (dispatch (InputChange sec name value) u)) = cvData (app u)
  ∧ isActive (app (dispatch (InputChange sec name value) u)) = isActive (app u).
Proof. intros Hne. by destruct sec, sec'. Qed.

Lemma input_change_isolated_witness :
  formOf Practical (dispatch (InputChange Education "dateStarted" "2020-01-01") mounted)
  = formOf Practical mounted
  ∧ draftOf Practical
      (draftData (app (dispatch (InputChange Education "dateStarted" "2020-01-01") mounted)))
    = draftOf Practical (draftData (app mounted))
  ∧ cvData (app (dispatch (InputChange Education "dateStarted" "2020-01-01") mounted))
    = cvData (app mounted)
  ∧ isActive (app (dispatch (InputChange Education "dateStarted" "2020-01-01") mounted))
    = isActive (app mounted).
Proof.
  apply (input_change_isolated Education Practical "dateStarted" "2020-01-01" mounted).
  discriminate.
Defined.


(* ===================================================================== *)
(** ** camelToKebab on arbitrary strings *)
(* ===================================================================== *)

Section GeneralCamelToKebab.

Implicit Types (s str text before : list N) (u cp lead trail : N).

(** *** Ranges *)






Lemma js_small_not_lead u : (u < 256)%N → JS.isLeadingSurrogate u = false.
Proof.
  intros Hu. unfold JS.isLeadingSurrogate, JS.inRange.
  apply andb_false_intro1. apply N.leb_gt. lia.
Qed.



(** *** The regular expression *)

Lemma js_replaceCamel_noUpper s :
  Forall (fun u => JS.isUpperAZ u = false) s → JS.replaceCamel s = s.
Proof.
  induction s as [|a s IH]; [done|].
  intros [Ha Hs]%Forall_cons. destruct s as [|b rest]; [done|].
  change (JS.replaceCamel (a :: b :: rest))
    with (if JS.isLowerOrDigit a && JS.isUpperAZ b
          then a :: 45%N :: b :: JS.replaceCamel rest
          else a :: JS.replaceCamel (b :: rest)).
  pose proof Hs as [Hb _]%Forall_cons.
  rewrite Hb, andb_false_r. by rewrite (IH Hs).
Qed.



(** *** Decoding and encoding *)

Lemma js_decode_cons_other first tail :
  JS.isLeadingSurrogate first && JS.headIsTrailing tail = false →
  JS.StringToCodePoints (first :: tail) = first :: JS.StringToCodePoints tail.
Proof. destruct tail as [|second rest]; [done|]. simpl. by intros ->. Qed.











(** *** Lower-casing code points *)

Context (table : JS.caseTable) (Htable : JS.UnicodeLowercase table).

Lemma js_lower_elem before text cp' :
  cp' ∈ JS.toLowercaseFrom table before text →
  ∃ b cp a, cp' ∈ table b cp a ∧ cp ∈ text.
Proof.
  revert before. induction text as [|cp after IH]; intros before; simpl.
  - by intros ?%elem_of_nil.
  - intros [Hin|Hin]%elem_of_app.
    + exists before, cp, after. split; [done|apply list_elem_of_here].
    + destruct (IH _ Hin) as (b & cp0 & a & Hin' & Hcp0).
      exists b, cp0, a. split; [done|by apply list_elem_of_further].
Qed.



Lemma js_lower_noUpper before text :
  Forall (fun cp => JS.isUpperAZ cp = false) (JS.toLowercaseFrom table before text).
Proof.
  apply Forall_forall. intros cp' Hin.
  destruct (js_lower_elem _ _ _ Hin) as (b & cp & a & Hin' & _).
  by apply (JS.lower_no_capital table Htable b cp a).
Qed.





(** *** toLowerCase and camelToKebab *)

Lemma js_encode_noUpper text :
  Forall (fun cp => JS.isUpperAZ cp = false) text →
  Forall (fun u => JS.isUpperAZ u = false) (JS.CodePointsToString text).
Proof.
  induction 1 as [|cp text Hcp _ IH]; [done|].
  change (JS.CodePointsToString (cp :: text))
    with (JS.UTF16EncodeCodePoint cp ++ JS.CodePointsToString text)%list.
  apply Forall_app. split; [|done].
  unfold JS.UTF16EncodeCodePoint. destruct (cp <=? 0xFFFF)%N.
  - by repeat constructor.
  - generalize ((cp - 0x10000) / 0x400)%N ((cp - 0x10000) mod 0x400)%N.
    intros q r. unfold JS.isUpperAZ, JS.inRange.
    repeat constructor; apply andb_false_intro2; apply N.leb_gt; lia.
Qed.

Lemma js_toLowerCase_noUpper s :
  Forall (fun u => JS.isUpperAZ u = false) (JS.toLowerCase table s).
Proof. apply js_encode_noUpper, js_lower_noUpper. Qed.


Lemma js_camelToKebab_noUpper s :
  Forall (fun u => JS.isUpperAZ u = false) (JS.camelToKebab table s).
Proof. apply js_toLowerCase_noUpper. Qed.


Lemma js_camelToKebab_fixed_iff s :
  JS.camelToKebab table s = s ↔ JS.toLowerCase table s = s.
Proof.
  split; intros Hfix.
  - assert (Hno : Forall (fun u => JS.isUpperAZ u = false) s)
      by (rewrite <- Hfix; apply js_camelToKebab_noUpper).
    unfold JS.camelToKebab in Hfix. by rewrite js_replaceCamel_noUpper in Hfix.
  - assert (Hno : Forall (fun u => JS.isUpperAZ u = false) s)
      by (rewrite <- Hfix; apply js_toLowerCase_noUpper).
    unfold JS.camelToKebab. by rewrite js_replaceCamel_noUpper.
Qed.

End GeneralCamelToKebab.

(** ** Strings of code units below 256 *)

Section Below256.

Implicit Types (s t : string) (c : ascii).

Lemma unitsOf_cons c s : unitsOf (String c s) = N_of_ascii c :: unitsOf s.
Proof. reflexivity. Qed.

Lemma unitsOf_length s : List.length (unitsOf s) = String.length s.
Proof. induction s as [|c s IH]; [done|]. rewrite unitsOf_cons. simpl. by rewrite IH. Qed.

Lemma unitsOf_inj s t : unitsOf s = unitsOf t → s = t.
Proof.
  revert t. induction s as [|c s IH]; intros [|d t]; try done.
  rewrite !unitsOf_cons. intros [= Hc Hs]. f_equal; [|by apply IH].
  by rewrite <- (ascii_N_embedding c), Hc, ascii_N_embedding.
Qed.

Lemma unitsOf_below256 s : Forall (fun u => (u < 256)%N) (unitsOf s).
Proof.
  induction s as [|c s IH]; [done|]. rewrite unitsOf_cons.
  apply Forall_cons. split; [apply N_ascii_bounded|done].
Qed.

Lemma js_isUpperAZ_ascii c : JS.isUpperAZ (N_of_ascii c) = isUpperAZ c.
Proof. destruct c as [[] [] [] [] [] [] [] []]; vm_compute; reflexivity. Qed.

Lemma js_isLowerOrDigit_ascii c : JS.isLowerOrDigit (N_of_ascii c) = isLowerOrDigit c.
Proof. destruct c as [[] [] [] [] [] [] [] []]; vm_compute; reflexivity. Qed.

Lemma js_replaceCamel_unitsOf_both s :
  JS.replaceCamel (unitsOf s) = unitsOf (replaceCamel s)
  ∧ ∀ a, JS.replaceCamel (unitsOf (String a s)) = unitsOf (replaceCamel (String a s)).
Proof.
  induction s as [|b rest [IH1 IH2]].
  - split; [done|]. by intros a.
  - split; [apply IH2|]. intros a.
    change (replaceCamel (String a (String b rest)))
      with (if isLowerOrDigit a && isUpperAZ b
            then String a (String "-" (String b (replaceCamel rest)))
            else String a (replaceCamel (String b rest))).
    change (JS.replaceCamel (unitsOf (String a (String b rest))))
      with (if JS.isLowerOrDigit (N_of_ascii a) && JS.isUpperAZ (N_of_ascii b)
            then N_of_ascii a :: 45%N :: N_of_ascii b :: JS.replaceCamel (unitsOf rest)
            else N_of_ascii a :: JS.replaceCamel (unitsOf (String b rest))).
    rewrite js_isLowerOrDigit_ascii, js_isUpperAZ_ascii.
    destruct (isLowerOrDigit a && isUpperAZ b).
    + rewrite IH1. reflexivity.
    + rewrite (IH2 b). reflexivity.
Qed.

Lemma js_replaceCamel_unitsOf s :
  JS.replaceCamel (unitsOf s) = unitsOf (replaceCamel s).
Proof. apply js_replaceCamel_unitsOf_both. Qed.

Lemma js_decode_below256 (l : list N) :
  Forall (fun u => (u < 256)%N) l → JS.StringToCodePoints l = l.
Proof.
  induction 1 as [|u l Hu _ IH]; [done|].
  rewrite js_decode_cons_other, IH; [done|].
  by rewrite (js_small_not_lead u Hu).
Qed.

Lemma js_encode_below256 (l : list N) :
  Forall (fun u => (u < 256)%N) l → JS.CodePointsToString l = l.
Proof.
  induction 1 as [|u l Hu _ IH]; [done|].
  change (JS.CodePointsToString (u :: l))
    with (JS.UTF16EncodeCodePoint u ++ JS.CodePointsToString l)%list.
  unfold JS.UTF16EncodeCodePoint.
  rewrite (proj2 (N.leb_le u 0xFFFF)) by lia. by rewrite IH.
Qed.

Context (table : JS.caseTable) (Htable : JS.UnicodeLowercase table).

Lemma js_lower_unitsOf (before : list N) s :
  JS.toLowercaseFrom table before (unitsOf s) = unitsOf (toLowerCase s).
Proof.
  revert before. induction s as [|c s IH]; intros before; [done|].
  simpl toLowerCase. rewrite !unitsOf_cons. simpl.
  rewrite (JS.lower_latin1 table Htable) by apply N_ascii_bounded.
  by rewrite ascii_N_embedding, IH.
Qed.

(** On a string of code units below 256 the function on arbitrary
    strings is [camelToKebab]. *)
Lemma js_camelToKebab_unitsOf s :
  JS.camelToKebab table (unitsOf s) = unitsOf (camelToKebab s).
Proof.
  unfold JS.camelToKebab, JS.toLowerCase, JS.toLowercase, camelToKebab.
  rewrite js_replaceCamel_unitsOf.
  rewrite js_decode_below256 by apply unitsOf_below256.
  rewrite js_lower_unitsOf.
  by rewrite js_encode_below256 by apply unitsOf_below256.
Qed.

End Below256.

(** [latin1Table] has what is used of the Unicode table. *)
Lemma latin1Table_UnicodeLowercase : JS.UnicodeLowercase latin1Table.
Proof.
  assert (Hsmall : ∀ c, latin1Table [] (N_of_ascii (lowerChar c)) []
                        = [N_of_ascii (lowerChar c)]).
  { intros c. unfold latin1Table.
    rewrite (proj2 (N.ltb_lt _ 256)) by apply N_ascii_bounded.
    rewrite ascii_N_embedding. do 2 f_equal.
    apply Ascii.eqb_eq, lowerChar_isLowered. }
  assert (Hcases : ∀ before cp after cp',
            cp' ∈ latin1Table before cp after →
            (∃ c, cp' = N_of_ascii (lowerChar c))
            ∨ cp' = 0x69%N ∨ cp' = 0x307%N
            ∨ (cp' = cp ∧ (256 ≤ cp)%N ∧ cp ≠ 0x130%N)).
  { intros before cp after cp'. unfold latin1Table.
    destruct (N.ltb_spec cp 256) as [Hlt|Hge].
    - intros ->%list_elem_of_singleton. left. by eexists.
    - destruct (N.eqb_spec cp 0x130) as [->|Hne].
      + intros [->|[->|?%elem_of_nil]%elem_of_cons]%elem_of_cons; auto. done.
      + intros ->%list_elem_of_singleton. by repeat right. }
  assert (Hplain : ∀ before cp after,
            (256 ≤ cp)%N → cp ≠ 0x130%N → latin1Table before cp after = [cp]).
  { intros before cp after Hge Hne. unfold latin1Table.
    rewrite (proj2 (N.ltb_ge cp 256)) by done.
    by rewrite (proj2 (N.eqb_neq cp 0x130)) by done. }
  split.
  - intros before cp after Hlt. unfold latin1Table.
    by rewrite (proj2 (N.ltb_lt cp 256)) by done.
  - intros before cp after cp' Hin.
    destruct (Hcases _ _ _ _ Hin) as [[c ->]|[->|[->|(-> & Hge & _)]]]; try done.
    + rewrite js_isUpperAZ_ascii. pose proof (lowerChar_notUpper c) as Hc.
      unfold notUpperAZ in Hc. by apply negb_true_iff in Hc.
    + unfold JS.isUpperAZ, JS.inRange. apply andb_false_intro2, N.leb_gt. lia.
  - intros before cp after cp' Hin before' after'.
    destruct (Hcases _ _ _ _ Hin) as [[c ->]|[->|[->|(-> & Hge & Hne)]]]; try done.
    + apply Hsmall.
    + by apply Hplain.
  - intros before cp after. unfold latin1Table.
    destruct (cp <? 256)%N; [done|]. by destruct (cp =? 0x130)%N.
  - intros before cp after Hs. apply Hplain.
    + unfold JS.isSurrogate, JS.inRange in Hs. apply andb_prop in Hs as [Hs _].
      apply N.leb_le in Hs. lia.
    + intros ->. done.
  - intros before cp after cp' Hs Hin.
    destruct (Hcases _ _ _ _ Hin) as [[c ->]|[->|[->|(-> & _ & _)]]]; try done.
    unfold JS.isSurrogate, JS.inRange. apply andb_false_intro1, N.leb_gt.
    pose proof (N_ascii_bounded (lowerChar c)). lia.
  - intros before cp after cp' Hcp Hin.
    destruct (Hcases _ _ _ _ Hin) as [[c ->]|[->|[->|(-> & _ & _)]]]; try done.
    pose proof (N_ascii_bounded (lowerChar c)). lia.
Qed.

(** Capital I with dot above becomes two code units, so the result is
    longer than the input without any hyphen; the surrogate pair of U+1F600,
    which has no case, is left as it is. *)
Example camelToKebab_dotted_capital_I :
  JS.camelToKebab latin1Table [0x61; 0x42; 0x130]%N = [0x61; 0x2D; 0x62; 0x69; 0x307]%N
  ∧ JS.camelToKebab latin1Table [0xD83D; 0xDE00; 0x5A]%N = [0xD83D; 0xDE00; 0x7A]%N.
Proof. split; reflexivity. Qed.



(** X17: on every string the fixed points of [camelToKebab] are the fixed
    points of [toLowerCase]: a string that lower-casing leaves alone gives
    the pattern nothing to match.  For a string of code units below 256
    these are the strings each of whose characters is its own lower
    case. *)
Theorem camelToKebab_fixed_points (table : JS.caseTable) (s : list N) (key : string) :
  JS.UnicodeLowercase table →
  (JS.camelToKebab table s = s ↔ JS.toLowerCase table s = s)
  ∧ (JS.camelToKebab table (unitsOf key) = unitsOf key
     ↔ allChars isLowered key = true).
Proof.
  intros Htable. split; [by apply js_camelToKebab_fixed_iff|].
  rewrite js_camelToKebab_unitsOf by done.
  rewrite <- camelToKebab_fixed_below256. split.
  - apply unitsOf_inj.
  - by intros ->.
Qed.

Lemma camelToKebab_fixed_points_witness :
  (JS.camelToKebab latin1Table [0x69; 0x307; 0xD83D; 0xDE00]%N
   = [0x69; 0x307; 0xD83D; 0xDE00]%N
   ↔ JS.toLowerCase latin1Table [0x69; 0x307; 0xD83D; 0xDE00]%N
     = [0x69; 0x307; 0xD83D; 0xDE00]%N)
  ∧ (JS.camelToKebab latin1Table (unitsOf "date-started") = unitsOf "date-started"
     ↔ allChars isLowered "date-started" = true).
Proof.
  apply (camelToKebab_fixed_points latin1Table
           [0x69; 0x307; 0xD83D; 0xDE00]%N "date-started").
  apply latin1Table_UnicodeLowercase.
Defined.

(** X18: on a string of code units below 256 (every key of the
    application) [camelToKebab] only ever inserts: the result is as long as
    the input plus one hyphen for each place where a lower-case letter or
    digit is followed by a capital, so never shorter than the input and
    never longer than one and a half times the input; the empty string
    gives the empty string. *)
Theorem camelToKebab_length (table : JS.caseTable) (key : string) :
  JS.UnicodeLowercase table →
  List.length (JS.camelToKebab table (unitsOf key))
  = (List.length (unitsOf key) + countMatches key)%nat
  ∧ (List.length (unitsOf key) ≤ List.length (JS.camelToKebab table (unitsOf key)))%nat
  ∧ (2 * List.length (JS.camelToKebab table (unitsOf key))
     ≤ 3 * List.length (unitsOf key))%nat
  ∧ JS.camelToKebab table [] = [].
Proof.
  intros Htable.
  destruct (replaceCamel_length_both key) as [[Hlen Hcnt] _].
  rewrite js_camelToKebab_unitsOf by done. rewrite !unitsOf_length.
  unfold camelToKebab. rewrite toLowerCase_length, Hlen.
  repeat split; try done; lia.
Qed.

Lemma camelToKebab_length_witness :
  List.length (JS.camelToKebab latin1Table (unitsOf "fieldOfStudy"))
  = (List.length (unitsOf "fieldOfStudy") + countMatches "fieldOfStudy")%nat
  ∧ (List.length (unitsOf "fieldOfStudy")
     ≤ List.length (JS.camelToKebab latin1Table (unitsOf "fieldOfStudy")))%nat
  ∧ (2 * List.length (JS.camelToKebab latin1Table (unitsOf "fieldOfStudy"))
     ≤ 3 * List.length (unitsOf "fieldOfStudy"))%nat
  ∧ JS.camelToKebab latin1Table [] = [].
Proof.
  apply (camelToKebab_length latin1Table "fieldOfStudy").
  apply latin1Table_UnicodeLowercase.
Defined.

(** X7: for a field list without a key [__proto__], a draft with the keys
    of the list and two fields of the list (so that every value shown is
    an own property of the draft): after [handleInputChange] for the key of
    a field, that field shows the new value and a field with another key
    shows what it showed before.  The freshly derived draft shows the empty
    string, and so does a field that was typed into and cleared, although
    its record then holds the empty string and not [null]. *)
Theorem displayed_value_follows_input
    (R : FormValues) (fields : FieldConfig) (field other : FieldType) (v : string) :
  "__proto__" ∉ fieldKeys fields →
  field ∈ fields →
  other ∈ fields →
  derivedFrom R fields →
  is_Some (R !! key other)
  ∧ is_Some (initialDraftState fields !! key field)
  ∧ valueAttr (renderField (handleInputChange (key field) v R) field) = v
  ∧ (key other ≠ key field →
     valueAttr (renderField (handleInputChange (key field) v R) other)
     = valueAttr (renderField R other))
  ∧ valueAttr (renderField (initialDraftState fields) field) = ""
  ∧ valueAttr (renderField (handleInputChange (key field) "" R) field) = ""
  ∧ handleInputChange (key field) "" R !! key field ≠ Some Null.
Proof.
  intros _ Hfield Hother Hder.
  assert (Hkey : ∀ f, f ∈ fields → key f ∈ fieldKeys fields).
  { intros f Hf. unfold fieldKeys, pluck. apply list_elem_of_In, in_map.
    by apply list_elem_of_In. }
  split; [|split; [|split; [|split; [|split; [|split]]]]]; simpl.
  - apply elem_of_dom. rewrite Hder. unfold keySet.
    apply elem_of_list_to_set. by apply Hkey.
  - rewrite initialDraftState_nullLiteral, nullLiteral_lookup.
    rewrite decide_True by (by apply Hkey). by eexists.
  - by rewrite handleInputChange_updateField, updateField_lookup_eq.
  - intros Hne. by rewrite handleInputChange_updateField, updateField_lookup_ne.
  - apply initialDraftState_orEmpty.
  - by rewrite handleInputChange_updateField, updateField_lookup_eq.
  - by rewrite handleInputChange_updateField, updateField_lookup_eq.
Qed.

Lemma displayed_value_follows_input_witness :
  is_Some (blankGeneral !! "email")
  ∧ is_Some (initialDraftState GENERAL_INFORMATION !! "name")
  ∧ valueAttr (renderField (handleInputChange "name" "Ann" blankGeneral)
                 (mkField "name" "Name" (Some "Enter Your Name") None)) = "Ann"
  ∧ ("email" ≠ "name" →
     valueAttr (renderField (handleInputChange "name" "Ann" blankGeneral)
                  (mkField "email" "Email" (Some "Enter Your E-Mail") None))
     = valueAttr (renderField blankGeneral
                    (mkField "email" "Email" (Some "Enter Your E-Mail") None)))
  ∧ valueAttr (renderField (initialDraftState GENERAL_INFORMATION)
                 (mkField "name" "Name" (Some "Enter Your Name") None)) = ""
  ∧ valueAttr (renderField (handleInputChange "name" "" blankGeneral)
                 (mkField "name" "Name" (Some "Enter Your Name") None)) = ""
  ∧ handleInputChange "name" "" blankGeneral !! "name" ≠ Some Null.
Proof.
  apply (displayed_value_follows_input blankGeneral GENERAL_INFORMATION
           (mkField "name" "Name" (Some "Enter Your Name") None)
           (mkField "email" "Email" (Some "Enter Your E-Mail") None) "Ann").
  - apply (bool_decide_unpack _). vm_compute. exact I.
  - unfold GENERAL_INFORMATION. apply list_elem_of_here.
  - unfold GENERAL_INFORMATION. apply list_elem_of_further, list_elem_of_here.
  - vm_compute. reflexivity.
Defined.
